(** * LeKiwi teleoperation bridge: daemon, wheel codec, kinematics, remote agent

    A shallow embedding of
      - [lerobot/common/robots/lekiwi/daemon_lekiwi.py] (class
        [DaemonLeKiwiRobot]): the raw wheel-speed codec, the body/wheel
        kinematics, the observation reconstruction and the connection
        life cycle;
      - [lerobot/scripts/run_mobile_so100.py]: the command dispatch and the
        watchdog of the on-robot control loop.

    Number model.  Python floats are IEEE binary64.  The scalar codec
    ([degps_to_raw], [raw_to_degps]) only uses operations the kernel's
    primitive floats provide, so module [Codec64] models it bit for bit.
    The kinematics go through [np.cos], [np.sin], [np.pi] and
    [np.linalg.inv]; module [Kinematics] models them over the real numbers
    (exact arithmetic, rounding of the float operations abstracted).
    Times and arm positions of the remote agent are rationals.
    Dictionaries are [gmap]s with string keys. *)

From Stdlib Require Import ZArith Lia Bool List Floats.
From Stdlib Require Import Reals Machin QArith Psatz.
From stdpp Require Import gmap strings list fin_maps.

Local Open Scope Z_scope.

(** ** Exhaustive checks over an interval of integers *)

Fixpoint all_from (n : nat) (z : Z) (p : Z -> bool) : bool :=
  match n with
  | O => true
  | S k => p z && all_from k (z + 1) p
  end.

(** ** The 16-bit sign-magnitude word *)

(** [raw_speed & 0x7FFF] and [raw_speed & 0x8000] of [raw_to_degps]. *)
Definition raw_magnitude (raw_speed : Z) : Z := Z.land raw_speed 0x7FFF.
Definition raw_negative (raw_speed : Z) : bool := negb (Z.land raw_speed 0x8000 =? 0).

(** The word with magnitude [m] in the low 15 bits and the sign in bit 15. *)
Definition sign_magnitude (m : Z) (neg : bool) : Z :=
  if neg then Z.lor m 0x8000 else m.

(** Setting bit 15 of, or masking to 15 bits, a magnitude [n] keeps [n]. *)
Definition sign_magnitude_bits_ok (n : Z) : bool :=
  (raw_magnitude (Z.lor n 0x8000) =? n)
  && raw_negative (Z.lor n 0x8000)
  && (raw_magnitude (Z.land n 0x7FFF) =? n)
  && negb (raw_negative (Z.land n 0x7FFF)).

(** Setting bit 15 of a magnitude adds 0x8000. *)
Definition sign_bit_adds_ok (n : Z) : bool :=
  Z.lor n 0x8000 =? n + 0x8000.


(** ** The codec on binary64 floats *)

Module Codec64.

Local Open Scope float_scope.

(** [steps_per_deg = 4096.0 / 360.0] *)
Definition steps_per_deg : float := 4096 / 360.

(** Python's [int(round(x))] on a float: the nearest integer, ties to
    the even one; [None] where Python raises (infinities and NaN). *)
Definition py_round (x : float) : option Z :=
  match Prim2SF x with
  | S754_zero _ => Some 0%Z
  | S754_finite s m e =>
      let mz := Z.pos m in
      let v :=
        if (0 <=? e)%Z then Z.shiftl mz e
        else
          let k := (- e)%Z in
          let q := Z.shiftr mz k in
          let r := Z.land mz (Z.ones k) in
          let h := Z.shiftl 1 (k - 1) in
          if (r <? h)%Z then q
          else if (h <? r)%Z then (q + 1)%Z
          else if Z.even q then q else (q + 1)%Z in
      Some (if s then (- v)%Z else v)
  | S754_infinity _ | S754_nan => None
  end.

(** Python's [float(n)] for an integer below [2^63] (exact below [2^53]). *)
Definition float_of_Z (n : Z) : float :=
  if (n <? 0)%Z then - of_uint63 (Uint63.of_Z (- n)) else of_uint63 (Uint63.of_Z n).

Definition degps_to_raw (degps : float) : option Z :=
  let speed_in_steps := abs degps * steps_per_deg in
  match py_round speed_in_steps with
  | None => None
  | Some speed_int =>
      let speed_int := if (0x7FFF <? speed_int)%Z then 0x7FFF%Z else speed_int in
      if degps <? 0 then Some (Z.lor speed_int 0x8000)
      else Some (Z.land speed_int 0x7FFF)
  end.

Definition raw_to_degps (raw_speed : Z) : float :=
  let magnitude := raw_magnitude raw_speed in
  let degps := float_of_Z magnitude / steps_per_deg in
  if raw_negative raw_speed then - degps else degps.

(** The speed of [m] ticks with the given sign, as a float in deg/s. *)
Definition signed_degps (m : Z) (neg : bool) : float :=
  let degps := float_of_Z m / steps_per_deg in
  if neg then - degps else degps.

(** One pair (magnitude, sign) survives encoding then decoding. *)
Definition codec_pair_ok (m : Z) (neg : bool) : bool :=
  match degps_to_raw (signed_degps m neg) with
  | Some raw =>
      (raw =? sign_magnitude m neg)%Z
      && (raw_magnitude raw =? m)%Z
      && Bool.eqb (raw_negative raw) neg
  | None => false
  end.

Definition codec_magnitude_ok (m : Z) : bool :=
  codec_pair_ok m false && ((m =? 0)%Z || codec_pair_ok m true).

End Codec64.

(** ** The codec and the kinematics over the real numbers *)

Module Kinematics.

Local Open Scope R_scope.

Definition steps_per_deg : R := 4096 / 360.

(** Python's [int(round(x))]: the nearest integer, ties to the even one. *)
Definition py_round (x : R) : Z :=
  let f := Int_part x in
  let r := frac_part x in
  if Rlt_dec r (1 / 2) then f
  else if Rlt_dec (1 / 2) r then (f + 1)%Z
  else if Z.even f then f else (f + 1)%Z.

Definition degps_to_raw (degps : R) : Z :=
  let speed_in_steps := Rabs degps * steps_per_deg in
  let speed_int := py_round speed_in_steps in
  let speed_int := if (0x7FFF <? speed_int)%Z then 0x7FFF%Z else speed_int in
  if Rlt_dec degps 0 then Z.lor speed_int 0x8000
  else Z.land speed_int 0x7FFF.

Definition raw_to_degps (raw_speed : Z) : R :=
  let magnitude := raw_magnitude raw_speed in
  let degps := IZR magnitude / steps_per_deg in
  if raw_negative raw_speed then - degps else degps.

(** The integer magnitude [degps_to_raw] writes: rounded, then clamped. *)
Definition clamped_steps (degps : R) : Z :=
  let speed_int := py_round (Rabs degps * steps_per_deg) in
  if (0x7FFF <? speed_int)%Z then 0x7FFF%Z else speed_int.

(** Half a tick, in deg/s: the most that rounding to a tick can change. *)
Definition half_tick_degps : R := (1 / 2) / steps_per_deg.

(** Default arguments of [body_to_wheel_raw] and [wheel_raw_to_body]. *)
Definition default_wheel_radius : R := 5 / 100.
Definition default_base_radius : R := 125 / 1000.
Definition default_max_raw : Z := 3000.

(** [np.radians] *)
Definition radians (deg : R) : R := deg * (PI / 180).

(** [angles = np.radians(np.array([240, 120, 0]) - 90)] *)
Definition angles : list R := map radians [240 - 90; 120 - 90; 0 - 90].

(** [m = np.array([[np.cos(a), np.sin(a), base_radius] for a in angles])] *)
Definition kinematic_matrix (base_radius : R) : list (list R) :=
  map (fun a => [cos a; sin a; base_radius]) angles.

Definition dot (u v : list R) : R :=
  fold_right Rplus 0 (zip_with Rmult u v).

(** [m.dot(v)] for a matrix given by its rows. *)
Definition mat_vec (m : list (list R)) (v : list R) : list R :=
  map (fun row => dot row v) m.

Definition det3 (m : list (list R)) : R :=
  match m with
  | [[a; b; c]; [d; e; f]; [g; h; i]] =>
      a * (e * i - f * h) - b * (d * i - f * g) + c * (d * h - e * g)
  | _ => 0
  end.

(** [np.linalg.inv] on a 3x3 matrix, in exact arithmetic: the adjugate over
    the determinant; [None] where numpy raises [LinAlgError] (singular
    matrix) or the shape is not 3x3. *)
Definition inv3 (m : list (list R)) : option (list (list R)) :=
  match m with
  | [[a; b; c]; [d; e; f]; [g; h; i]] =>
      let det := det3 m in
      if Req_dec_T det 0 then None
      else Some [[(e * i - f * h) / det; (c * h - b * i) / det; (b * f - c * e) / det];
                 [(f * g - d * i) / det; (a * i - c * g) / det; (c * d - a * f) / det];
                 [(d * h - e * g) / det; (b * g - a * h) / det; (a * e - b * d) / det]]
  | _ => None
  end.

(** Python's [max] of a non-empty list. *)
Definition list_max (l : list R) : R :=
  match l with
  | [] => 0
  | x :: t => fold_left Rmax t x
  end.

(** [wheel_degps] of [body_to_wheel_raw] before the scaling step. *)
Definition wheel_degps_of_body
    (x_cmd y_cmd theta_cmd wheel_radius base_radius : R) : list R :=
  let theta_rad := theta_cmd * (PI / 180) in
  let velocity_vector := [x_cmd; y_cmd; theta_rad] in
  let m := kinematic_matrix base_radius in
  let wheel_linear_speeds := mat_vec m velocity_vector in
  let wheel_angular_speeds := map (fun v => v / wheel_radius) wheel_linear_speeds in
  map (fun w => w * (180 / PI)) wheel_angular_speeds.

(** [raw_floats = [abs(degps) * steps_per_deg for degps in wheel_degps]] *)
Definition raw_floats (wheel_degps : list R) : list R :=
  map (fun degps => Rabs degps * steps_per_deg) wheel_degps.

(** The test [max_raw_computed > max_raw] of the scaling step. *)
Definition saturates (wheel_degps : list R) (max_raw : Z) : Prop :=
  list_max (raw_floats wheel_degps) > IZR max_raw.

(** [scale = max_raw / max_raw_computed] *)
Definition scale_factor (wheel_degps : list R) (max_raw : Z) : R :=
  IZR max_raw / list_max (raw_floats wheel_degps).

(** The scaling step: [wheel_degps] after it. *)
Definition scaled_wheel_degps (wheel_degps : list R) (max_raw : Z) : list R :=
  let max_raw_computed := list_max (raw_floats wheel_degps) in
  if Rgt_dec max_raw_computed (IZR max_raw) then
    let scale := IZR max_raw / max_raw_computed in
    map (fun d => d * scale) wheel_degps
  else wheel_degps.

Definition body_to_wheel_raw
    (x_cmd y_cmd theta_cmd wheel_radius base_radius : R) (max_raw : Z)
    : gmap string Z :=
  let wheel_degps :=
    scaled_wheel_degps
      (wheel_degps_of_body x_cmd y_cmd theta_cmd wheel_radius base_radius) max_raw in
  let wheel_raw := map degps_to_raw wheel_degps in
  <["left_wheel" := nth 0 wheel_raw 0%Z]>
    (<["back_wheel" := nth 1 wheel_raw 0%Z]>
       (<["right_wheel" := nth 2 wheel_raw 0%Z]> ∅)).

(** The keys of the dictionary, in the order of [wheel_raw]. *)
Definition wheel_names : list string := ["left_wheel"; "back_wheel"; "right_wheel"].

(** [raw_list] of [wheel_raw_to_body]: [wheel_raw.get(key, 0)] per wheel. *)
Definition raw_list (wheel_raw : gmap string Z) : list Z :=
  [ default 0%Z (wheel_raw !! "left_wheel");
    default 0%Z (wheel_raw !! "back_wheel");
    default 0%Z (wheel_raw !! "right_wheel") ].

(** [None] where [np.linalg.inv] raises. *)
Definition wheel_raw_to_body
    (wheel_raw : gmap string Z) (wheel_radius base_radius : R)
    : option (R * R * R) :=
  let wheel_degps := map raw_to_degps (raw_list wheel_raw) in
  let wheel_radps := map (fun d => d * (PI / 180)) wheel_degps in
  let wheel_linear_speeds := map (fun w => w * wheel_radius) wheel_radps in
  let m := kinematic_matrix base_radius in
  match inv3 m with
  | None => None
  | Some m_inv =>
      match mat_vec m_inv wheel_linear_speeds with
      | [x_cmd; y_cmd; theta_rad] => Some (x_cmd, y_cmd, theta_rad * (180 / PI))
      | _ => None
      end
  end.

End Kinematics.

(** ** The daemon: [DaemonLeKiwiRobot] *)

Module Daemon.

(** Exceptions, by the place that raises them. *)
Inductive exn :=
| DeviceAlreadyConnectedError
| DeviceNotConnectedError
| JSONDecodeError
| Base64Error
| TensorError
| LinAlgError.

Inductive result (A : Type) :=
| Ok (a : A)
| Raise (e : exn).
Arguments Ok {A} a.
Arguments Raise {A} e.

(** A raster image: a [uint8] array of shape (height, width, channels). *)
Record frame := Frame { shape : nat * nat * nat; pixels : list N }.

(** [np.zeros((cam.height, cam.width, cam.channels), dtype=np.uint8)] *)
Definition black_frame (hwc : nat * nat * nat) : frame :=
  let '(h, w, c) := hwc in Frame hwc (repeat 0%N (h * w * c)).

(** The value under a camera name in ["images"], by what the decoding
    calls of [get_data] do on it. *)
Inductive image_payload :=
| EmptyPayload          (* the empty string: skipped by [if image_b64] *)
| PayloadRaises         (* [base64.b64decode] raises *)
| Undecodable           (* [cv2.imdecode] returns [None] *)
| Jpeg (f : frame).     (* [cv2.imdecode] returns the image [f] *)

(** The value of ["follower_arm_state"]. *)
Inductive arm_field :=
| ArmNone                   (* key absent, or JSON [null] *)
| ArmValues (v : list R)    (* [torch.tensor] succeeds with these entries *)
| ArmRaises.                (* [torch.tensor] raises on it *)

(** A string read from the observation socket.  ["present_speed"] is
    taken to be a dictionary of integers and an arm state that converts
    to be a flat list of numbers, the shapes the remote agent publishes.
    Other JSON values there (a [null] or non-dictionary speed, a scalar or
    nested arm state) are outside this type: [get_data] would cache them
    unchecked and [get_observation] would raise on them. *)
Inductive obs_message :=
| EmptyMsg                  (* the empty string *)
| Malformed                 (* [json.loads], [.get] or [.items] raises *)
| Observation (images : list (string * image_payload))
              (present_speed : gmap string Z)
              (follower_arm_state : arm_field).

(** Outcome of [poller.poll(15)] followed by the draining loop. *)
Inductive poll_result :=
| PollTimeout
| PollReady (msgs : list obs_message).

Inductive socket := NoSocket | OpenSocket | ClosedSocket.

(** The attributes of the object that the modelled methods read or write.
    [cameras] maps each configured camera to (height, width, channels);
    [present_position] and [goal_position] stand for [self.actuators].
    The class reads [self.cameras] and [self.actuators] without assigning
    them: both are taken as given. *)
Record daemon := {
  cameras : list (string * (nat * nat * nat));
  max_relative_target : option R;
  present_position : list R;
  goal_position : option (list Z);
  zmq_context : socket;
  zmq_cmd_socket : socket;
  zmq_observation_socket : socket;
  last_frames : gmap string frame;
  last_present_speed : gmap string Z;
  last_remote_arm_state : list R;
  is_connected : bool
}.

(** [__init__] *)
Definition init (cams : list (string * (nat * nat * nat))) (mrt : option R)
    (pos : list R) : daemon :=
  {| cameras := cams; max_relative_target := mrt; present_position := pos;
     goal_position := None;
     zmq_context := NoSocket; zmq_cmd_socket := NoSocket;
     zmq_observation_socket := NoSocket;
     last_frames := ∅; last_present_speed := ∅;
     last_remote_arm_state := repeat 0%R 6;
     is_connected := false |}.

Definition set_sockets (s : daemon) (ctx cmd obs : socket) (conn : bool) : daemon :=
  {| cameras := cameras s; max_relative_target := max_relative_target s;
     present_position := present_position s; goal_position := goal_position s;
     zmq_context := ctx; zmq_cmd_socket := cmd; zmq_observation_socket := obs;
     last_frames := last_frames s; last_present_speed := last_present_speed s;
     last_remote_arm_state := last_remote_arm_state s;
     is_connected := conn |}.

Definition set_last_frames (s : daemon) (frames : gmap string frame) : daemon :=
  {| cameras := cameras s; max_relative_target := max_relative_target s;
     present_position := present_position s; goal_position := goal_position s;
     zmq_context := zmq_context s; zmq_cmd_socket := zmq_cmd_socket s;
     zmq_observation_socket := zmq_observation_socket s;
     last_frames := frames; last_present_speed := last_present_speed s;
     last_remote_arm_state := last_remote_arm_state s;
     is_connected := is_connected s |}.

Definition set_last_present_speed (s : daemon) (speed : gmap string Z) : daemon :=
  {| cameras := cameras s; max_relative_target := max_relative_target s;
     present_position := present_position s; goal_position := goal_position s;
     zmq_context := zmq_context s; zmq_cmd_socket := zmq_cmd_socket s;
     zmq_observation_socket := zmq_observation_socket s;
     last_frames := last_frames s; last_present_speed := speed;
     last_remote_arm_state := last_remote_arm_state s;
     is_connected := is_connected s |}.

Definition set_last_remote_arm_state (s : daemon) (arm : list R) : daemon :=
  {| cameras := cameras s; max_relative_target := max_relative_target s;
     present_position := present_position s; goal_position := goal_position s;
     zmq_context := zmq_context s; zmq_cmd_socket := zmq_cmd_socket s;
     zmq_observation_socket := zmq_observation_socket s;
     last_frames := last_frames s; last_present_speed := last_present_speed s;
     last_remote_arm_state := arm;
     is_connected := is_connected s |}.

Definition set_goal_position (s : daemon) (goal : list Z) : daemon :=
  {| cameras := cameras s; max_relative_target := max_relative_target s;
     present_position := present_position s; goal_position := Some goal;
     zmq_context := zmq_context s; zmq_cmd_socket := zmq_cmd_socket s;
     zmq_observation_socket := zmq_observation_socket s;
     last_frames := last_frames s; last_present_speed := last_present_speed s;
     last_remote_arm_state := last_remote_arm_state s;
     is_connected := is_connected s |}.

Definition connect (s : daemon) : result unit * daemon :=
  if is_connected s then (Raise DeviceAlreadyConnectedError, s)
  else (Ok tt, set_sockets s OpenSocket OpenSocket OpenSocket true).

Definition disconnect (s : daemon) : result unit * daemon :=
  if negb (is_connected s) then (Raise DeviceNotConnectedError, s)
  else (Ok tt, set_sockets s ClosedSocket ClosedSocket ClosedSocket false).

(** The snapshot a call returns: frames, present speed, arm state. *)
Definition snapshot : Type := gmap string frame * gmap string Z * list R.

(** [(self.last_frames, self.last_present_speed, self.last_remote_arm_state)] *)
Definition cached (s : daemon) : snapshot :=
  (last_frames s, last_present_speed s, last_remote_arm_state s).

(** One turn of the loop [for cam_name, image_b64 in images_dict.items()]. *)
Definition decode_image (frames : gmap string frame)
    (cam_name : string) (image_b64 : image_payload) : result (gmap string frame) :=
  match image_b64 with
  | EmptyPayload => Ok frames
  | PayloadRaises => Raise Base64Error
  | Undecodable => Ok frames
  | Jpeg frame_candidate => Ok (<[cam_name := frame_candidate]> frames)
  end.

(** The frame a payload contributes to [frames], if any. *)
Definition payload_decodes (p : image_payload) : option frame :=
  match p with
  | Jpeg f => Some f
  | EmptyPayload | PayloadRaises | Undecodable => None
  end.

Fixpoint decode_images (images : list (string * image_payload))
    (frames : gmap string frame) : result (gmap string frame) :=
  match images with
  | [] => Ok frames
  | (cam_name, image_b64) :: rest =>
      match decode_image frames cam_name image_b64 with
      | Ok frames' => decode_images rest frames'
      | Raise e => Raise e
      end
  end.

(** The body of the [try] block of [get_data], with the object's state
    threaded through: an exception leaves the state as it was when raised. *)
Definition decode_message (msg : obs_message) (s : daemon)
    : result snapshot * daemon :=
  match msg with
  | EmptyMsg | Malformed => (Raise JSONDecodeError, s)
  | Observation images_dict new_speed new_arm_state =>
      match decode_images images_dict ∅ with
      | Raise e => (Raise e, s)
      | Ok frames =>
          match new_arm_state with
          | ArmNone => (Ok (cached s), s)
          | ArmRaises =>
              let s1 := set_last_frames s frames in
              (Raise TensorError, s1)
          | ArmValues remote_arm_state_tensor =>
              let s1 := set_last_frames s frames in
              let s2 := set_last_remote_arm_state s1 remote_arm_state_tensor in
              let s3 := set_last_present_speed s2 new_speed in
              (Ok (frames, new_speed, remote_arm_state_tensor), s3)
          end
      end
  end.

Definition get_data (p : poll_result) (s : daemon) : snapshot * daemon :=
  match p with
  | PollTimeout => (cached s, s)
  | PollReady msgs =>
      match last msgs with
      | None | Some EmptyMsg => (cached s, s)
      | Some last_msg =>
          match decode_message last_msg s with
          | (Ok snap, s') => (snap, s')
          | (Raise _, s') => (cached s', s')
          end
      end
  end.

(** Values of the observation dictionary: the state tensor or an image. *)
Inductive obs_value :=
| StateTensor (v : list R)
| ImageTensor (f : frame).

Definition OBS_STATE : string := "observation.state".
Definition OBS_IMAGES : string := "observation.images".

(** The loop [for cam_name, cam in self.cameras.items()] of [get_observation]. *)
Definition add_camera_frames (frames : gmap string frame)
    (cams : list (string * (nat * nat * nat)))
    (obs_dict : gmap string obs_value) : gmap string obs_value :=
  fold_left
    (fun obs_dict cam =>
       let frame := default (black_frame cam.2) (frames !! cam.1) in
       <[OBS_IMAGES +:+ "." +:+ cam.1 := ImageTensor frame]> obs_dict)
    cams obs_dict.

Definition get_observation (p : poll_result) (s : daemon)
    : result (gmap string obs_value) * daemon :=
  if negb (is_connected s) then (Raise DeviceNotConnectedError, s)
  else
    let '((frames, present_speed, remote_arm_state_tensor), s') := get_data p s in
    match Kinematics.wheel_raw_to_body present_speed
            Kinematics.default_wheel_radius Kinematics.default_base_radius with
    | None => (Raise LinAlgError, s')
    | Some (x, y, theta) =>
        let wheel_state_tensor := [x * 1000; y * 1000; theta]%R in
        let combined_state_tensor := remote_arm_state_tensor ++ wheel_state_tensor in
        let obs_dict := {[OBS_STATE := StateTensor combined_state_tensor]} in
        (Ok (add_camera_frames frames (cameras s') obs_dict), s')
    end.

(** [send_action]; [ensure_safe_goal_position] and [astype(np.int32)] are
    library code, taken as arguments. *)
Definition send_action
    (ensure_safe_goal_position : list R -> list R -> R -> list R)
    (astype_int32 : R -> Z)
    (action : list R) (s : daemon) : result (list R) * daemon :=
  if negb (is_connected s) then (Raise DeviceNotConnectedError, s)
  else
    let goal_pos :=
      match max_relative_target s with
      | Some mrt => ensure_safe_goal_position action (present_position s) mrt
      | None => action
      end in
    (Ok goal_pos, set_goal_position s (map astype_int32 goal_pos)).

(** [__del__]: [getattr(self, "is_connected", False)] guards the call. *)
Definition del (s : daemon) : result unit * daemon :=
  if is_connected s then disconnect s else (Ok tt, s).

(** The fields [get_data] never assigns. *)
Definition same_session (s s' : daemon) : Prop :=
  cameras s' = cameras s
  /\ max_relative_target s' = max_relative_target s
  /\ present_position s' = present_position s
  /\ goal_position s' = goal_position s
  /\ zmq_context s' = zmq_context s
  /\ zmq_cmd_socket s' = zmq_cmd_socket s
  /\ zmq_observation_socket s' = zmq_observation_socket s
  /\ is_connected s' = is_connected s.

(** The keys [get_observation] fills: the state and one per camera. *)
Definition observation_keys (cams : list (string * (nat * nat * nat))) : list string :=
  OBS_STATE :: map (fun cam => OBS_IMAGES +:+ "." +:+ cam.1) cams.

(** *** A daemon with two cameras, used in the examples *)

Definition old_front : frame := Frame (1, 1, 3)%nat [10; 20; 30]%N.
Definition old_wrist : frame := Frame (1, 1, 3)%nat [40; 50; 60]%N.
Definition new_wrist : frame := Frame (1, 1, 3)%nat [41; 51; 61]%N.

(** Connected, with a cached frame for each of its two cameras. *)
Definition two_cameras : daemon :=
  set_last_frames
    (set_sockets
       (init [("front", (1, 1, 3)%nat); ("wrist", (1, 1, 3)%nat)] None [])
       OpenSocket OpenSocket OpenSocket true)
    (<["front" := old_front]> (<["wrist" := old_wrist]> ∅)).

(** One corrupt payload (camera "front") and one valid one ("wrist"). *)
Definition half_corrupt : obs_message :=
  Observation [("front", Undecodable); ("wrist", Jpeg new_wrist)] ∅
    (ArmValues (repeat 1%R 6)).

End Daemon.

(** ** The remote agent: the control loop of [run_mobile_so100.py] *)

Module RemoteAgent.

Local Open Scope Q_scope.

Definition arm_motor_ids : list string :=
  ["shoulder_pan"; "shoulder_lift"; "elbow_flex"; "wrist_flex"; "wrist_roll"; "gripper"].

(** The value under ["arm_positions"]. *)
Inductive arm_positions_field :=
| NotAList                      (* [isinstance(arm_positions, list)] fails *)
| Positions (l : list Q).

(** The value under ["raw_velocity"]. *)
Inductive raw_velocity_field :=
| Unusable                      (* [.get] or [int(...)] raises on it *)
| Velocities (d : gmap string Z).

(** A string read from the command socket. *)
Inductive command :=
| BadJson                       (* [json.loads] or a key test raises *)
| Command (arm_positions : option arm_positions_field)
          (raw_velocity : option raw_velocity_field).

(** Calls made on the motor bus and on the robot, in the order made.  The
    calls themselves are taken to succeed: a failing bus is outside the
    model. *)
Inductive call :=
| WriteGoalPosition (motor : string) (pos : Q)    (* [motors_bus.write("Goal_Position", pos, motor)] *)
| SetVelocity (command_speeds : list Z)           (* [robot.set_velocity(command_speeds)] *)
| Stop.                                           (* [robot.stop()] *)

Record agent := {
  last_cmd_time : Q;
  calls : list call
}.

Definition do_call (c : call) (a : agent) : agent :=
  {| last_cmd_time := last_cmd_time a; calls := calls a ++ [c] |}.

Definition set_last_cmd_time (now : Q) (a : agent) : agent :=
  {| last_cmd_time := now; calls := calls a |}.

(** [for motor, pos in zip(arm_motor_ids, arm_positions, strict=False)] *)
Definition write_arm_positions (arm_positions : list Q) (a : agent) : agent :=
  fold_left (fun a mp => do_call (WriteGoalPosition mp.1 mp.2) a)
            (zip arm_motor_ids arm_positions) a.

(** The arm part of the [try] block. *)
Definition dispatch_arm (field : option arm_positions_field) (a : agent) : agent :=
  match field with
  | None => a
  | Some NotAList => a
  | Some (Positions arm_positions) =>
      if (length arm_positions <? length arm_motor_ids)%nat then a
      else write_arm_positions arm_positions a
  end.

(** [[int(raw_command.get(f"wheel_{i}", 0)) for i in [1, 2, 3]]] *)
Definition command_speeds (raw_command : gmap string Z) : list Z :=
  map (fun key => default 0%Z (raw_command !! key)) ["wheel_1"; "wheel_2"; "wheel_3"].

(** The wheel part of the [try] block. *)
Definition dispatch_wheels (now : Q) (field : option raw_velocity_field)
    (a : agent) : agent :=
  match field with
  | None => a
  | Some Unusable => a
  | Some (Velocities raw_command) =>
      set_last_cmd_time now (do_call (SetVelocity (command_speeds raw_command)) a)
  end.

(** One received message: the body of the inner [while True]. *)
Definition handle_message (now : Q) (msg : command) (a : agent) : agent :=
  match msg with
  | BadJson => a
  | Command arm_positions raw_velocity =>
      dispatch_wheels now raw_velocity (dispatch_arm arm_positions a)
  end.

(** Watchdog: [if now - last_cmd_time > 0.5: robot.stop(); last_cmd_time = now] *)
Definition watchdog (now : Q) (a : agent) : agent :=
  if Qlt_le_dec (1 # 2) (now - last_cmd_time a)
  then set_last_cmd_time now (do_call Stop a)
  else a.

(** One iteration of the outer loop, up to the watchdog: [now] is the
    value of [time.time()] and [msgs] the strings drained from the socket. *)
Definition cycle (a : agent) (it : Q * list command) : agent :=
  let '(now, msgs) := it in
  watchdog now (fold_left (fun a msg => handle_message now msg a) msgs a).

Definition run (a : agent) (its : list (Q * list command)) : agent :=
  fold_left cycle its a.

(** The state when the loop is entered: [last_cmd_time = time.time()]. *)
Definition start (t0 : Q) : agent := {| last_cmd_time := t0; calls := [] |}.

Definition is_wheel_call (c : call) : bool :=
  match c with
  | SetVelocity _ | Stop => true
  | WriteGoalPosition _ _ => false
  end.

(** The wheel command in force: the last one given to the robot. *)
Definition applied_wheel_command (a : agent) : option call :=
  last (filter (fun c => is_wheel_call c = true) (calls a)).

(** A message that the loop accepts as a wheel command. *)
Definition accepted (msg : command) : bool :=
  match msg with
  | Command _ (Some (Velocities _)) => true
  | _ => false
  end.

(** The time of the last iteration that accepted a wheel command. *)
Definition last_accepted (its : list (Q * list command)) : option Q :=
  fold_left
    (fun acc it => if existsb accepted it.2 then Some it.1 else acc)
    its None.

Definition is_arm_write (c : call) : bool :=
  match c with
  | WriteGoalPosition _ _ => true
  | SetVelocity _ | Stop => false
  end.

(** The calls the arm part of a message adds. *)
Definition arm_writes (field : option arm_positions_field) : list call :=
  match field with
  | Some (Positions arm_positions) =>
      if (length arm_positions <? length arm_motor_ids)%nat then []
      else map (fun mp => WriteGoalPosition mp.1 mp.2)
               (zip arm_motor_ids arm_positions)
  | Some NotAList | None => []
  end.

(** The calls the wheel part of a message adds. *)
Definition wheel_writes (field : option raw_velocity_field) : list call :=
  match field with
  | Some (Velocities raw_command) => [SetVelocity (command_speeds raw_command)]
  | Some Unusable | None => []
  end.

(** The last accepted wheel command among the messages of one iteration. *)
Definition last_velocities (msgs : list command) : option (list Z) :=
  fold_left
    (fun acc msg =>
       match msg with
       | Command _ (Some (Velocities raw_command)) => Some (command_speeds raw_command)
       | _ => acc
       end)
    msgs None.

(** ["present_speed"] of the observation the loop builds from
    [current_velocity = robot.read_velocity()]. *)
Definition present_speed_field (current_velocity : gmap string Z) : gmap string Z :=
  <["1" := default 0%Z (current_velocity !! "1")]>
    (<["2" := default 0%Z (current_velocity !! "2")]>
       (<["3" := default 0%Z (current_velocity !! "3")]> ∅)).

(** The calls one message adds, in order. *)
Definition message_calls (msg : command) : list call :=
  match msg with
  | BadJson => []
  | Command arm_positions raw_velocity =>
      arm_writes arm_positions ++ wheel_writes raw_velocity
  end.

(** The reference time of the watchdog: the last accepted wheel command,
    or the entry into the loop when there was none. *)
Definition reference_time (t0 : Q) (its : list (Q * list command)) : Q :=
  match last_accepted its with
  | Some T => T
  | None => t0
  end.

(** Either the watchdog's clock still shows the reference time, or the
    watchdog has fired since and the wheel command in force is the stop. *)
Definition watchdog_invariant (t0 : Q) (its : list (Q * list command))
    (a : agent) : Prop :=
  reference_time t0 its <= last_cmd_time a
  /\ (reference_time t0 its < last_cmd_time a ->
      applied_wheel_command a = Some Stop).

End RemoteAgent.

(** * Properties *)

(** ** Helpers *)

Lemma all_from_spec (p : Z -> bool) (n : nat) (z : Z) :
  all_from n z p = true ->
  forall k, z <= k < z + Z.of_nat n -> p k = true.
Proof.
  revert z; induction n as [|n IH]; intros z Hall k Hk; [lia|].
  cbn [all_from] in Hall. apply andb_true_iff in Hall as [Hz Hrest].
  destruct (Z.eq_dec k z) as [->|Hne]; [exact Hz|].
  apply (IH (z + 1) Hrest). lia.
Qed.

(** ** Raw encode/decode on binary64 floats *)

Lemma codec64_exhaustive :
  all_from (Z.to_nat 32768) 0 Codec64.codec_magnitude_ok = true.
Proof. vm_compute. reflexivity. Qed.

Lemma codec64_pair_ok (m : Z) (neg : bool) :
  0 <= m <= 0x7FFF -> (m = 0 -> neg = false) ->
  Codec64.codec_pair_ok m neg = true.
Proof.
  intros Hm Hz.
  assert (Hall : Codec64.codec_magnitude_ok m = true).
  { apply (all_from_spec _ _ _ codec64_exhaustive). lia. }
  unfold Codec64.codec_magnitude_ok in Hall.
  apply andb_true_iff in Hall as [Hpos Hneg].
  destruct neg; [|exact Hpos].
  apply orb_true_iff in Hneg as [H0|Hok]; [|exact Hok].
  apply Z.eqb_eq in H0. specialize (Hz H0). discriminate.
Qed.

(** C5 (as amended).  On binary64 floats: for every magnitude [m] in
    [0, 0x7FFF] and every sign, except the pair (0, minus), encoding the
    speed of [m] ticks with that sign yields the word with [m] in the low
    15 bits and the sign in bit 15, and decoding that word gives back the
    magnitude, the sign and the very float that was encoded. *)
Theorem codec64_roundtrip (m : Z) (neg : bool) :
  0 <= m <= 0x7FFF -> (m = 0 -> neg = false) ->
  exists raw,
    Codec64.degps_to_raw (Codec64.signed_degps m neg) = Some raw
    /\ raw = sign_magnitude m neg
    /\ raw_magnitude raw = m
    /\ raw_negative raw = neg
    /\ Codec64.raw_to_degps raw = Codec64.signed_degps m neg.
Proof.
  intros Hm Hz.
  pose proof (codec64_pair_ok m neg Hm Hz) as Hok.
  unfold Codec64.codec_pair_ok in Hok.
  destruct (Codec64.degps_to_raw (Codec64.signed_degps m neg)) as [raw|]; [|discriminate].
  apply andb_true_iff in Hok as [Hok Hsign].
  apply andb_true_iff in Hok as [Hraw Hmag].
  apply Z.eqb_eq in Hraw, Hmag. apply Bool.eqb_prop in Hsign.
  exists raw. repeat split; try assumption.
  unfold Codec64.raw_to_degps, Codec64.signed_degps.
  rewrite Hmag, Hsign. reflexivity.
Qed.

Lemma codec64_roundtrip_witness :
  exists raw,
    Codec64.degps_to_raw (Codec64.signed_degps 3000 true) = Some raw
    /\ raw = sign_magnitude 3000 true
    /\ raw_magnitude raw = 3000
    /\ raw_negative raw = true
    /\ Codec64.raw_to_degps raw = Codec64.signed_degps 3000 true.
Proof. apply (codec64_roundtrip 3000 true); [lia | intros H; discriminate H]. Defined.

(** C5, the input on which the claim as stated fails: magnitude 0 with
    the minus sign.  The speed is the float [-0.0]; [-0.0 < 0] is false,
    so the encoder returns the word 0, whose bit 15 is clear: the sign is
    lost.  Likewise the word 0x8000 decodes to [-0.0] and re-encodes to 0. *)
Lemma codec64_negative_zero_lost :
  Codec64.signed_degps 0 true = (- 0)%float
  /\ Codec64.degps_to_raw (Codec64.signed_degps 0 true) = Some 0
  /\ raw_negative 0 = false
  /\ sign_magnitude 0 true = 0x8000
  /\ Codec64.raw_to_degps 0x8000 = (- 0)%float
  /\ Codec64.degps_to_raw (Codec64.raw_to_degps 0x8000) = Some 0.
Proof. vm_compute. repeat split. Qed.

(** ** Rounding to the nearest integer *)

Section Rounding.
Local Open Scope R_scope.
Import Kinematics.

Lemma Rabs_le_bounds (a b : R) : Rabs a <= b -> - b <= a <= b.
Proof. unfold Rabs. destruct (Rcase_abs a); lra. Qed.

Lemma py_round_error (x : R) : Rabs (IZR (py_round x) - x) <= 1 / 2.
Proof.
  unfold py_round.
  pose proof (base_fp x) as [Hge Hlt].
  pose proof (Rplus_Int_part_frac_part x) as Hx.
  set (f := Int_part x) in *. set (r := frac_part x) in *.
  apply Rabs_le.
  destruct (Rlt_dec r (1 / 2)) as [H1|H1]; [lra|].
  destruct (Rlt_dec (1 / 2) r) as [H2|H2]; [rewrite plus_IZR; lra|].
  destruct (Z.even f); [lra | rewrite plus_IZR; lra].
Qed.

Lemma py_round_near (x : R) (n : Z) :
  IZR n - 1 / 2 < x < IZR n + 1 / 2 -> py_round x = n.
Proof.
  intros Hn. pose proof (py_round_error x) as He.
  apply Rabs_le_bounds in He.
  assert (Hlt : (IZR (py_round x) - IZR n < 1) /\ (IZR n - IZR (py_round x) < 1)) by lra.
  destruct Hlt as [Ha Hb].
  rewrite <- minus_IZR in Ha, Hb.
  apply lt_IZR in Ha, Hb. lia.
Qed.

Lemma py_round_IZR (n : Z) : py_round (IZR n) = n.
Proof. apply py_round_near. lra. Qed.

Lemma py_round_mono (x y : R) : x <= y -> (py_round x <= py_round y)%Z.
Proof.
  intros Hxy. unfold py_round.
  pose proof (base_fp x) as [Hxge Hxlt]. pose proof (base_fp y) as [Hyge Hylt].
  pose proof (Rplus_Int_part_frac_part x) as Hx.
  pose proof (Rplus_Int_part_frac_part y) as Hy.
  set (fx := Int_part x) in *. set (rx := frac_part x) in *.
  set (fy := Int_part y) in *. set (ry := frac_part y) in *.
  assert (Hf : (fx <= fy)%Z).
  { apply Z.lt_succ_r. apply lt_IZR. rewrite succ_IZR. lra. }
  destruct (Z.eq_dec fx fy) as [Heq|Hne].
  - rewrite <- Heq in *.
    assert (Hr : rx <= ry) by lra.
    destruct (Rlt_dec rx (1 / 2)), (Rlt_dec ry (1 / 2)),
      (Rlt_dec (1 / 2) rx), (Rlt_dec (1 / 2) ry), (Z.even fx); try lia; lra.
  - assert (fx + 1 <= fy)%Z by lia.
    destruct (Rlt_dec rx (1 / 2)), (Rlt_dec ry (1 / 2)),
      (Rlt_dec (1 / 2) rx), (Rlt_dec (1 / 2) ry), (Z.even fx), (Z.even fy); lia.
Qed.

Lemma py_round_nonneg (x : R) : 0 <= x -> (0 <= py_round x)%Z.
Proof.
  intros Hx. rewrite <- (py_round_IZR 0). apply py_round_mono. exact Hx.
Qed.

End Rounding.

(** ** Sign and magnitude bits *)

Lemma sign_magnitude_bits_exhaustive :
  all_from (Z.to_nat 32768) 0 sign_magnitude_bits_ok = true.
Proof. vm_compute. reflexivity. Qed.

Lemma sign_magnitude_bits (n : Z) :
  0 <= n <= 0x7FFF ->
  raw_magnitude (Z.lor n 0x8000) = n
  /\ raw_negative (Z.lor n 0x8000) = true
  /\ raw_magnitude (Z.land n 0x7FFF) = n
  /\ raw_negative (Z.land n 0x7FFF) = false.
Proof.
  intros Hn.
  assert (Hok : sign_magnitude_bits_ok n = true).
  { apply (all_from_spec _ _ _ sign_magnitude_bits_exhaustive). lia. }
  unfold sign_magnitude_bits_ok in Hok.
  repeat (apply andb_true_iff in Hok as [Hok ?]).
  repeat split; try (apply Z.eqb_eq; assumption); try assumption.
  apply negb_true_iff. assumption.
Qed.

(** ** The codec over the reals *)

Section RealCodec.
Local Open Scope R_scope.
Import Kinematics.

Lemma steps_per_deg_pos : 0 < steps_per_deg.
Proof. unfold steps_per_deg. lra. Qed.

Lemma clamped_steps_range (degps : R) : (0 <= clamped_steps degps <= 0x7FFF)%Z.
Proof.
  unfold clamped_steps.
  assert (0 <= py_round (Rabs degps * steps_per_deg))%Z.
  { apply py_round_nonneg. apply Rmult_le_pos; [apply Rabs_pos|].
    pose proof steps_per_deg_pos. lra. }
  destruct (Z.ltb_spec 0x7FFF (py_round (Rabs degps * steps_per_deg))); lia.
Qed.

Lemma degps_to_raw_magnitude (degps : R) :
  raw_magnitude (degps_to_raw degps) = clamped_steps degps.
Proof.
  pose proof (clamped_steps_range degps) as Hr.
  destruct (sign_magnitude_bits _ Hr) as (Hm1 & _ & Hm2 & _).
  unfold degps_to_raw. fold (clamped_steps degps).
  destruct (Rlt_dec degps 0); assumption.
Qed.

Lemma degps_to_raw_negative (degps : R) :
  raw_negative (degps_to_raw degps) = if Rlt_dec degps 0 then true else false.
Proof.
  pose proof (clamped_steps_range degps) as Hr.
  destruct (sign_magnitude_bits _ Hr) as (_ & Hs1 & _ & Hs2).
  unfold degps_to_raw. fold (clamped_steps degps).
  destruct (Rlt_dec degps 0); assumption.
Qed.

(** Decoding what was encoded: the speed is off by at most half a tick,
    as long as it was not clamped. *)
Lemma raw_to_degps_error (degps : R) :
  Rabs degps * steps_per_deg <= 0x7FFF ->
  Rabs (raw_to_degps (degps_to_raw degps) - degps) <= (1 / 2) / steps_per_deg.
Proof.
  intros Hrange. pose proof steps_per_deg_pos as Hs.
  unfold raw_to_degps.
  rewrite degps_to_raw_magnitude, degps_to_raw_negative.
  unfold clamped_steps.
  set (a := Rabs degps * steps_per_deg) in *.
  assert (Hle : (py_round a <= 0x7FFF)%Z).
  { rewrite <- (py_round_IZR 0x7FFF). apply py_round_mono. exact Hrange. }
  destruct (Z.ltb_spec 0x7FFF (py_round a)) as [Hgt|_]; [lia|].
  pose proof (py_round_error a) as He. apply Rabs_le_bounds in He.
  assert (Hdiv : forall u, u / steps_per_deg * steps_per_deg = u).
  { intros u. field. lra. }
  apply Rabs_le.
  assert (Hscale : forall u v, - (1 / 2) <= u * steps_per_deg - v * steps_per_deg <= 1 / 2 ->
                    - (1 / 2 / steps_per_deg) <= u - v <= 1 / 2 / steps_per_deg).
  { intros u v [H1 H2].
    assert (Hinv : 0 <= / steps_per_deg) by (left; apply Rinv_0_lt_compat; lra).
    replace (u - v) with ((u * steps_per_deg - v * steps_per_deg) * / steps_per_deg)
      by (field; lra).
    replace (1 / 2 / steps_per_deg) with (1 / 2 * / steps_per_deg) by (field; lra).
    split; [| apply Rmult_le_compat_r; lra].
    rewrite Ropp_mult_distr_l. apply Rmult_le_compat_r; lra. }
  apply Hscale.
  destruct (Rlt_dec degps 0) as [Hneg|Hpos].
  - assert (Ha : a = - degps * steps_per_deg).
    { unfold a. rewrite (Rabs_left _ Hneg). reflexivity. }
    replace (- (IZR (py_round a) / steps_per_deg) * steps_per_deg)
      with (- IZR (py_round a)) by (field; lra). lra.
  - assert (Ha : a = degps * steps_per_deg).
    { unfold a. rewrite (Rabs_right degps) by lra. reflexivity. }
    rewrite Hdiv. lra.
Qed.

End RealCodec.

(** ** The kinematic matrix *)

Section KinematicMatrix.
Local Open Scope R_scope.
Import Kinematics.

Lemma sqrt3_pos : 0 < sqrt 3.
Proof. apply sqrt_lt_R0. lra. Qed.

Lemma sqrt3_sqr : sqrt 3 * sqrt 3 = 3.
Proof. apply sqrt_sqrt. lra. Qed.

Lemma angles_values :
  angles = [PI - PI / 6; PI / 6; - (PI / 2)].
Proof.
  unfold angles, radians. cbn [map].
  repeat f_equal; field.
Qed.

Lemma kinematic_matrix_values (base_radius : R) :
  kinematic_matrix base_radius =
    [[- (sqrt 3 / 2); 1 / 2; base_radius];
     [sqrt 3 / 2; 1 / 2; base_radius];
     [0; -1; base_radius]].
Proof.
  unfold kinematic_matrix. rewrite angles_values. cbn [map].
  rewrite Rtrigo_facts.cos_pi_minus, sin_PI_x, cos_PI6, sin_PI6.
  rewrite cos_neg, sin_neg, cos_PI2, sin_PI2.
  repeat f_equal; lra.
Qed.

Lemma kinematic_matrix_det (base_radius : R) :
  det3 (kinematic_matrix base_radius) = - (3 * sqrt 3 / 2) * base_radius.
Proof. rewrite kinematic_matrix_values. cbn [det3]. field. Qed.

Lemma kinematic_matrix_regular (base_radius : R) :
  base_radius <> 0 -> det3 (kinematic_matrix base_radius) <> 0.
Proof.
  intros Hb. rewrite kinematic_matrix_det. pose proof sqrt3_pos.
  intros H0. apply Rmult_integral in H0 as [H0|H0]; [lra | contradiction].
Qed.

(** The inverse in closed form. *)
Lemma kinematic_matrix_inv (base_radius : R) :
  base_radius <> 0 ->
  inv3 (kinematic_matrix base_radius) =
    Some [[- (1 / sqrt 3); 1 / sqrt 3; 0];
          [1 / 3; 1 / 3; - (2 / 3)];
          [1 / (3 * base_radius); 1 / (3 * base_radius); 1 / (3 * base_radius)]].
Proof.
  intros Hb. pose proof (kinematic_matrix_regular _ Hb) as Hdet.
  pose proof sqrt3_pos as Hs. pose proof sqrt3_sqr as Hss.
  revert Hdet. rewrite kinematic_matrix_values. intros Hdet.
  unfold inv3. destruct (Req_dec_T _ 0) as [H0|_]; [contradiction|].
  cbn [det3] in *.
  assert (Hd : - (sqrt 3 / 2) * (1 / 2 * base_radius - base_radius * -1)
               - 1 / 2 * (sqrt 3 / 2 * base_radius - base_radius * 0)
               + base_radius * (sqrt 3 / 2 * -1 - 1 / 2 * 0)
               = - (3 * sqrt 3 / 2) * base_radius) by field.
  rewrite Hd.
  f_equal. repeat (apply (f_equal2 cons)); try reflexivity; field; split; lra.
Qed.

End KinematicMatrix.

(** ** Forward and inverse transforms in closed form *)

Section ClosedForms.
Local Open Scope R_scope.
Import Kinematics.

Lemma wheel_degps_of_body_values (x y theta r b : R) :
  wheel_degps_of_body x y theta r b =
    [ (- (sqrt 3 / 2) * x + (1 / 2 * y + (b * (theta * (PI / 180)) + 0))) / r * (180 / PI);
      (sqrt 3 / 2 * x + (1 / 2 * y + (b * (theta * (PI / 180)) + 0))) / r * (180 / PI);
      (0 * x + (-1 * y + (b * (theta * (PI / 180)) + 0))) / r * (180 / PI) ].
Proof.
  unfold wheel_degps_of_body. rewrite kinematic_matrix_values. reflexivity.
Qed.

Lemma raw_list_body_to_wheel_raw (x y theta r b : R) (max_raw : Z) :
  raw_list (body_to_wheel_raw x y theta r b max_raw) =
    map degps_to_raw
      (scaled_wheel_degps (wheel_degps_of_body x y theta r b) max_raw).
Proof.
  unfold raw_list, body_to_wheel_raw.
  set (ds := scaled_wheel_degps _ _).
  assert (Hlen : length ds = 3%nat).
  { unfold ds, scaled_wheel_degps. rewrite wheel_degps_of_body_values.
    destruct (Rgt_dec _ _); reflexivity. }
  destruct ds as [|d1 [|d2 [|d3 [|? ?]]]]; try discriminate Hlen.
  cbn [map nth].
  rewrite lookup_insert_eq.
  rewrite lookup_insert_ne by done. rewrite lookup_insert_eq.
  rewrite !lookup_insert_ne by done. rewrite lookup_insert_eq.
  reflexivity.
Qed.

Lemma wheel_raw_to_body_values (wheel_raw : gmap string Z) (r b : R) (r1 r2 r3 : Z) :
  b <> 0 ->
  raw_list wheel_raw = [r1; r2; r3] ->
  let w1 := raw_to_degps r1 * (PI / 180) * r in
  let w2 := raw_to_degps r2 * (PI / 180) * r in
  let w3 := raw_to_degps r3 * (PI / 180) * r in
  wheel_raw_to_body wheel_raw r b =
    Some ((w2 - w1) / sqrt 3,
          (w1 + w2 - 2 * w3) / 3,
          (w1 + w2 + w3) / (3 * b) * (180 / PI)).
Proof.
  intros Hb Hraw w1 w2 w3. unfold wheel_raw_to_body.
  rewrite (kinematic_matrix_inv _ Hb), Hraw. cbn [map mat_vec dot zip_with fold_right].
  fold w1 w2 w3. pose proof sqrt3_pos.
  repeat f_equal; field; lra.
Qed.

Lemma list_max_3 (a1 a2 a3 : R) :
  list_max [a1; a2; a3] = Rmax (Rmax a1 a2) a3.
Proof. reflexivity. Qed.

End ClosedForms.

Section RoundTrip.
Local Open Scope R_scope.
Import Kinematics.

Lemma not_saturated_bounds (d1 d2 d3 : R) (max_raw : Z) :
  ~ saturates [d1; d2; d3] max_raw ->
  Rabs d1 * steps_per_deg <= IZR max_raw
  /\ Rabs d2 * steps_per_deg <= IZR max_raw
  /\ Rabs d3 * steps_per_deg <= IZR max_raw.
Proof.
  unfold saturates. cbn [raw_floats map]. rewrite list_max_3. intros Hns.
  set (a1 := Rabs d1 * steps_per_deg) in *.
  set (a2 := Rabs d2 * steps_per_deg) in *.
  set (a3 := Rabs d3 * steps_per_deg) in *.
  pose proof (Rmax_l (Rmax a1 a2) a3). pose proof (Rmax_r (Rmax a1 a2) a3).
  pose proof (Rmax_l a1 a2). pose proof (Rmax_r a1 a2).
  lra.
Qed.

Lemma scaled_wheel_degps_unsaturated (ds : list R) (max_raw : Z) :
  ~ saturates ds max_raw -> scaled_wheel_degps ds max_raw = ds.
Proof.
  unfold saturates, scaled_wheel_degps. intros Hns.
  destruct (Rgt_dec _ _); [contradiction | reflexivity].
Qed.

(** C4.  Over the reals: for every body command that does not trigger the
    scaling step, with positive radii and [max_raw] within the 15-bit
    range, [wheel_raw_to_body] applied to the result of
    [body_to_wheel_raw] returns the command up to the quantisation of
    each wheel speed to a whole tick: half a tick per wheel, carried
    through the inverse matrix. *)
Theorem kinematics_round_trip (x y theta r b : R) (max_raw : Z) :
  0 < r -> 0 < b -> (max_raw <= 0x7FFF)%Z ->
  ~ saturates (wheel_degps_of_body x y theta r b) max_raw ->
  exists x' y' theta',
    wheel_raw_to_body (body_to_wheel_raw x y theta r b max_raw) r b
      = Some (x', y', theta')
    /\ Rabs (x' - x) <= 2 * (half_tick_degps * (PI / 180) * r) / sqrt 3
    /\ Rabs (y' - y) <= 4 * (half_tick_degps * (PI / 180) * r) / 3
    /\ Rabs (theta' - theta) <= half_tick_degps * r / b.
Proof.
  intros Hr Hb Hmax Hns.
  pose proof (raw_list_body_to_wheel_raw x y theta r b max_raw) as Hraw.
  rewrite (scaled_wheel_degps_unsaturated _ _ Hns) in Hraw.
  revert Hns Hraw. rewrite wheel_degps_of_body_values.
  set (d1 := _ / r * (180 / PI)). set (d2 := _ / r * (180 / PI)).
  set (d3 := _ / r * (180 / PI)).
  intros Hns Hraw. cbn [map] in Hraw.
  apply not_saturated_bounds in Hns as (H1 & H2 & H3).
  apply IZR_le in Hmax.
  pose proof (raw_to_degps_error d1 ltac:(lra)) as E1.
  pose proof (raw_to_degps_error d2 ltac:(lra)) as E2.
  pose proof (raw_to_degps_error d3 ltac:(lra)) as E3.
  fold half_tick_degps in E1, E2, E3.
  apply Rabs_le_bounds in E1, E2, E3.
  rewrite (wheel_raw_to_body_values _ r b _ _ _ ltac:(lra) Hraw).
  do 3 eexists. split; [reflexivity|].
  set (e1 := raw_to_degps (degps_to_raw d1)) in *.
  set (e2 := raw_to_degps (degps_to_raw d2)) in *.
  set (e3 := raw_to_degps (degps_to_raw d3)) in *.
  pose proof PI_RGT_0 as Hpi. pose proof sqrt3_pos as Hs.
  pose proof sqrt3_sqr as Hss.
  set (k := PI / 180 * r).
  assert (Hk : 0 < k) by (unfold k; apply Rmult_lt_0_compat; lra).
  assert (Hw1 : d1 * (PI / 180) * r = - (sqrt 3 / 2) * x + 1 / 2 * y + b * (theta * (PI / 180)))
    by (unfold d1; field; lra).
  assert (Hw2 : d2 * (PI / 180) * r = sqrt 3 / 2 * x + 1 / 2 * y + b * (theta * (PI / 180)))
    by (unfold d2; field; lra).
  assert (Hw3 : d3 * (PI / 180) * r = - y + b * (theta * (PI / 180)))
    by (unfold d3; field; lra).
  assert (Hx : (e2 * (PI / 180) * r - e1 * (PI / 180) * r) / sqrt 3 - x
               = ((e2 - d2) - (e1 - d1)) * k / sqrt 3).
  { unfold k. apply (Rmult_eq_reg_r (sqrt 3)); [|lra].
    replace (((e2 - d2) - (e1 - d1)) * (PI / 180 * r) / sqrt 3 * sqrt 3)
      with ((e2 * (PI / 180) * r - e1 * (PI / 180) * r)
            - (d2 * (PI / 180) * r - d1 * (PI / 180) * r)) by (field; lra).
    rewrite Hw1, Hw2.
    replace (((e2 * (PI / 180) * r - e1 * (PI / 180) * r) / sqrt 3 - x) * sqrt 3)
      with ((e2 * (PI / 180) * r - e1 * (PI / 180) * r) - x * sqrt 3) by (field; lra).
    nra. }
  assert (Hy : (e1 * (PI / 180) * r + e2 * (PI / 180) * r - 2 * (e3 * (PI / 180) * r)) / 3 - y
               = ((e1 - d1) + (e2 - d2) - 2 * (e3 - d3)) * k / 3).
  { unfold k.
    replace (((e1 - d1) + (e2 - d2) - 2 * (e3 - d3)) * (PI / 180 * r) / 3)
      with ((e1 * (PI / 180) * r + e2 * (PI / 180) * r - 2 * (e3 * (PI / 180) * r)) / 3
            - (d1 * (PI / 180) * r + d2 * (PI / 180) * r - 2 * (d3 * (PI / 180) * r)) / 3)
      by field.
    rewrite Hw1, Hw2, Hw3. field. }
  assert (Ht : (e1 * (PI / 180) * r + e2 * (PI / 180) * r + e3 * (PI / 180) * r)
                 / (3 * b) * (180 / PI) - theta
               = ((e1 - d1) + (e2 - d2) + (e3 - d3)) * (r / (3 * b))).
  { replace (((e1 - d1) + (e2 - d2) + (e3 - d3)) * (r / (3 * b)))
      with ((e1 * (PI / 180) * r + e2 * (PI / 180) * r + e3 * (PI / 180) * r)
              / (3 * b) * (180 / PI)
            - (d1 * (PI / 180) * r + d2 * (PI / 180) * r + d3 * (PI / 180) * r)
              / (3 * b) * (180 / PI)) by (field; lra).
    rewrite Hw1, Hw2, Hw3. field. lra. }
  rewrite Hx, Hy, Ht.
  set (h := half_tick_degps) in *.
  assert (Hh : 0 <= h) by lra.
  replace (2 * (h * (PI / 180) * r) / sqrt 3) with ((2 * h) * (k / sqrt 3))
    by (unfold k; field; lra).
  replace ((e2 - d2 - (e1 - d1)) * k / sqrt 3) with ((e2 - d2 - (e1 - d1)) * (k / sqrt 3))
    by (field; lra).
  replace (4 * (h * (PI / 180) * r) / 3) with ((4 * h) * (k / 3)) by (unfold k; field).
  replace ((e1 - d1 + (e2 - d2) - 2 * (e3 - d3)) * k / 3)
    with ((e1 - d1 + (e2 - d2) - 2 * (e3 - d3)) * (k / 3)) by field.
  replace (h * r / b) with ((3 * h) * (r / (3 * b))) by (field; lra).
  assert (Hc1 : 0 <= k / sqrt 3).
  { apply Rlt_le, Rdiv_lt_0_compat; lra. }
  assert (Hc2 : 0 <= k / 3) by lra.
  assert (Hc3 : 0 <= r / (3 * b)).
  { apply Rlt_le, Rdiv_lt_0_compat; lra. }
  repeat split; apply Rabs_le; split;
    try (rewrite Ropp_mult_distr_l); apply Rmult_le_compat_r; lra.
Qed.

End RoundTrip.

Section Saturation.
Local Open Scope R_scope.
Import Kinematics.

Lemma fold_left_Rmax_ge (l : list R) (x : R) : x <= fold_left Rmax l x.
Proof.
  revert x; induction l as [|a l IH]; intros x; cbn [fold_left]; [lra|].
  pose proof (IH (Rmax x a)). pose proof (Rmax_l x a). lra.
Qed.

Lemma fold_left_Rmax_elem (l : list R) (x a : R) :
  In a l -> a <= fold_left Rmax l x.
Proof.
  revert x; induction l as [|b l IH]; intros x Hin; [destruct Hin|].
  cbn [fold_left]. destruct Hin as [->|Hin].
  - pose proof (fold_left_Rmax_ge l (Rmax x a)). pose proof (Rmax_r x a). lra.
  - apply IH, Hin.
Qed.

Lemma list_max_ge (l : list R) (a : R) : In a l -> a <= list_max l.
Proof.
  destruct l as [|x l]; [intros []|]. intros [->|Hin]; cbn [list_max].
  - apply fold_left_Rmax_ge.
  - apply fold_left_Rmax_elem, Hin.
Qed.

Lemma scale_factor_range (ds : list R) (max_raw : Z) :
  (0 <= max_raw)%Z -> saturates ds max_raw ->
  0 <= scale_factor ds max_raw < 1.
Proof.
  unfold saturates, scale_factor. intros Hm Hsat. apply IZR_le in Hm.
  set (c := list_max (raw_floats ds)) in *.
  assert (Hc : 0 < c) by lra.
  split.
  - apply Rmult_le_pos; [lra|]. left. apply Rinv_0_lt_compat, Hc.
  - apply (Rmult_lt_reg_r c); [exact Hc|].
    replace (IZR max_raw / c * c) with (IZR max_raw) by (field; lra). lra.
Qed.

Lemma scaled_wheel_degps_saturated (ds : list R) (max_raw : Z) :
  saturates ds max_raw ->
  scaled_wheel_degps ds max_raw = map (fun d => d * scale_factor ds max_raw) ds.
Proof.
  unfold saturates, scaled_wheel_degps, scale_factor. intros Hsat.
  destruct (Rgt_dec _ _); [reflexivity | contradiction].
Qed.

Lemma raw_floats_scaled (ds : list R) (s : R) :
  0 <= s ->
  raw_floats (map (fun d => d * s) ds) = map (fun a => a * s) (raw_floats ds).
Proof.
  intros Hs. unfold raw_floats. rewrite !map_map. apply map_ext. intros d.
  rewrite Rabs_mult, (Rabs_right s) by lra. ring.
Qed.

Lemma scaled_raw_float_le (ds : list R) (max_raw : Z) (d : R) :
  (0 <= max_raw)%Z -> saturates ds max_raw -> In d ds ->
  Rabs (d * scale_factor ds max_raw) * steps_per_deg <= IZR max_raw.
Proof.
  intros Hm Hsat Hin.
  pose proof (scale_factor_range ds max_raw Hm Hsat) as [Hs0 Hs1].
  assert (Hle : Rabs d * steps_per_deg <= list_max (raw_floats ds)).
  { apply list_max_ge. unfold raw_floats.
    apply (in_map (fun degps => Rabs degps * steps_per_deg)), Hin. }
  rewrite Rabs_mult, (Rabs_right (scale_factor ds max_raw)) by lra.
  unfold saturates in Hsat. apply IZR_le in Hm.
  set (c := list_max (raw_floats ds)) in *.
  assert (Hc : 0 < c) by lra.
  assert (Hsc : scale_factor ds max_raw * c = IZR max_raw).
  { unfold scale_factor. fold c. field. lra. }
  rewrite <- Hsc.
  replace (Rabs d * scale_factor ds max_raw * steps_per_deg)
    with (scale_factor ds max_raw * (Rabs d * steps_per_deg)) by ring.
  apply Rmult_le_compat_l; assumption.
Qed.

Lemma body_to_wheel_raw_lookup (x y theta r b : R) (max_raw : Z) (i : nat) (key : string) :
  wheel_names !! i = Some key ->
  body_to_wheel_raw x y theta r b max_raw !! key =
    degps_to_raw <$>
      (scaled_wheel_degps (wheel_degps_of_body x y theta r b) max_raw !! i).
Proof.
  intros Hkey. unfold body_to_wheel_raw.
  set (ds := scaled_wheel_degps _ _).
  assert (Hlen : length ds = 3%nat).
  { unfold ds, scaled_wheel_degps. rewrite wheel_degps_of_body_values.
    destruct (Rgt_dec _ _); reflexivity. }
  destruct ds as [|d1 [|d2 [|d3 [|? ?]]]]; try discriminate Hlen.
  cbn [map nth].
  destruct i as [|[|[|i]]]; cbn in Hkey; try discriminate Hkey;
    injection Hkey as <-.
  - now rewrite lookup_insert_eq.
  - rewrite lookup_insert_ne by done. now rewrite lookup_insert_eq.
  - rewrite !lookup_insert_ne by done. now rewrite lookup_insert_eq.
Qed.

(** C6 (as amended).  When the largest naive raw magnitude exceeds
    [max_raw] (and [max_raw] is not negative), every wheel speed is
    multiplied by the one factor [s = max_raw / largest], with [0 <= s < 1]:
    the naive raw magnitudes keep their ratios exactly before rounding.
    Each wheel's final raw magnitude is at most [max_raw], and, for
    [max_raw] within the 15-bit range, it is its scaled magnitude rounded
    to the nearest integer. *)
Theorem saturation_scaling (x y theta r b : R) (max_raw : Z) :
  let ds := wheel_degps_of_body x y theta r b in
  let s := scale_factor ds max_raw in
  (0 <= max_raw)%Z -> saturates ds max_raw ->
  0 <= s < 1
  /\ raw_floats (scaled_wheel_degps ds max_raw) = map (fun a => a * s) (raw_floats ds)
  /\ (forall (i j : nat) (ai aj ai' aj' : R),
        raw_floats ds !! i = Some ai ->
        raw_floats ds !! j = Some aj ->
        raw_floats (scaled_wheel_degps ds max_raw) !! i = Some ai' ->
        raw_floats (scaled_wheel_degps ds max_raw) !! j = Some aj' ->
        ai' * aj = aj' * ai)
  /\ (forall (i : nat) (key : string) (a : R),
        wheel_names !! i = Some key ->
        raw_floats ds !! i = Some a ->
        exists raw,
          body_to_wheel_raw x y theta r b max_raw !! key = Some raw
          /\ (raw_magnitude raw <= max_raw)%Z
          /\ ((max_raw <= 0x7FFF)%Z ->
              raw_magnitude raw = py_round (a * s))).
Proof.
  intros ds s Hm Hsat.
  pose proof (scale_factor_range ds max_raw Hm Hsat) as Hs. fold s in Hs.
  pose proof (scaled_wheel_degps_saturated ds max_raw Hsat) as Hscaled. fold s in Hscaled.
  assert (Hrf : raw_floats (scaled_wheel_degps ds max_raw)
                = map (fun a => a * s) (raw_floats ds)).
  { rewrite Hscaled. apply raw_floats_scaled. lra. }
  split; [exact Hs|]. split; [exact Hrf|]. split.
  - intros i j ai aj ai' aj' Hi Hj Hi' Hj'.
    rewrite Hrf, list_lookup_fmap in Hi', Hj'.
    rewrite Hi in Hi'. rewrite Hj in Hj'. cbn in Hi', Hj'.
    injection Hi' as <-. injection Hj' as <-. ring.
  - intros i key a Hkey Ha.
    unfold raw_floats in Ha. rewrite list_lookup_fmap in Ha.
    destruct (ds !! i) as [d|] eqn:Hd; [|discriminate Ha].
    cbn in Ha. injection Ha as <-.
    exists (degps_to_raw (d * s)).
    assert (Hin : In d ds).
    { apply list_elem_of_In. apply list_elem_of_lookup. eauto. }
    pose proof (scaled_raw_float_le ds max_raw d Hm Hsat Hin) as Hle. fold s in Hle.
    assert (Hround : (py_round (Rabs (d * s) * steps_per_deg) <= max_raw)%Z).
    { rewrite <- (py_round_IZR max_raw). apply py_round_mono, Hle. }
    split; [|split].
    + rewrite (body_to_wheel_raw_lookup _ _ _ _ _ _ i key Hkey).
      fold ds. rewrite Hscaled, list_lookup_fmap, Hd. reflexivity.
    + rewrite degps_to_raw_magnitude. unfold clamped_steps.
      destruct (Z.ltb_spec 0x7FFF (py_round (Rabs (d * s) * steps_per_deg))); lia.
    + intros Hmax. rewrite degps_to_raw_magnitude. unfold clamped_steps.
      destruct (Z.ltb_spec 0x7FFF (py_round (Rabs (d * s) * steps_per_deg))); [lia|].
      f_equal. rewrite Rabs_mult, (Rabs_right s) by lra. ring.
Qed.

End Saturation.

Section Examples.
Local Open Scope R_scope.
Import Kinematics.

Lemma PI_bounds : 3.14159 < PI < 3.1416.
Proof.
  pose proof (PI_2_3_7_ineq 3) as [Hlo Hhi].
  unfold PI_2_3_7_tg, tg_alt, Ratan_seq in Hlo, Hhi.
  cbn [sum_f_R0 Nat.mul Nat.add pow INR] in Hlo, Hhi.
  split; lra.
Qed.

(** [degps_to_raw] at a speed whose raw magnitude lies within half a tick
    of [n]. *)
Lemma degps_to_raw_near (degps : R) (n : Z) :
  (0 <= n <= 0x7FFF)%Z ->
  IZR n - 1 / 2 < Rabs degps * steps_per_deg < IZR n + 1 / 2 ->
  degps_to_raw degps =
    if Rlt_dec degps 0 then Z.lor n 0x8000 else Z.land n 0x7FFF.
Proof.
  intros Hn Hnear. unfold degps_to_raw.
  rewrite (py_round_near _ n Hnear).
  destruct (Z.ltb_spec 0x7FFF n); [lia | reflexivity].
Qed.

(** The body command (0 m/s, 1 m/s, 90 deg/s) with the default radii. *)
Lemma example_wheel_degps :
  wheel_degps_of_body 0 1 90 default_wheel_radius default_base_radius =
    [1800 / PI + 225; 1800 / PI + 225; - (3600 / PI - 225)].
Proof.
  rewrite wheel_degps_of_body_values.
  unfold default_wheel_radius, default_base_radius.
  pose proof PI_RGT_0.
  repeat (apply (f_equal2 cons)); try reflexivity; field; lra.
Qed.

Lemma example_raw_floats :
  raw_floats (wheel_degps_of_body 0 1 90 default_wheel_radius default_base_radius) =
    [20480 / PI + 2560; 20480 / PI + 2560; 40960 / PI - 2560].
Proof.
  rewrite example_wheel_degps. unfold raw_floats, steps_per_deg. cbn [map].
  pose proof PI_bounds as [Hlo Hhi].
  assert (Hinv : 0 < / PI) by (apply Rinv_0_lt_compat; lra).
  assert (H1 : 0 < 1800 / PI + 225) by (unfold Rdiv; lra).
  assert (H3 : 0 < 3600 / PI - 225).
  { apply (Rmult_lt_reg_r PI); [lra|].
    replace ((3600 / PI - 225) * PI) with (3600 - 225 * PI) by (field; lra). lra. }
  rewrite (Rabs_right (1800 / PI + 225)) by lra.
  rewrite Rabs_Ropp, (Rabs_right (3600 / PI - 225)) by lra.
  repeat (apply (f_equal2 cons)); try reflexivity; field; lra.
Qed.

Lemma example_inv_PI : 0.3183 < / PI < 0.31832.
Proof.
  pose proof PI_bounds as [Hlo Hhi].
  assert (Hinv : 0 < / PI) by (apply Rinv_0_lt_compat; lra).
  assert (H1 : PI * / PI = 1) by (field; lra).
  split; nra.
Qed.

Lemma example_list_max :
  list_max (raw_floats (wheel_degps_of_body 0 1 90 default_wheel_radius default_base_radius))
    = 40960 / PI - 2560.
Proof.
  rewrite example_raw_floats, list_max_3.
  pose proof example_inv_PI as [Hlo Hhi]. unfold Rdiv.
  rewrite (Rmax_left (20480 * / PI + 2560) (20480 * / PI + 2560)) by lra.
  rewrite Rmax_right by lra. reflexivity.
Qed.

Lemma example_saturates :
  saturates (wheel_degps_of_body 0 1 90 default_wheel_radius default_base_radius)
    default_max_raw.
Proof.
  unfold saturates. rewrite example_list_max. unfold default_max_raw.
  pose proof example_inv_PI as [Hlo Hhi]. unfold Rdiv. lra.
Qed.

Lemma example_scaled :
  scaled_wheel_degps
    (wheel_degps_of_body 0 1 90 default_wheel_radius default_base_radius)
    default_max_raw
  = map (fun d => d * (3000 / (40960 / PI - 2560)))
      [1800 / PI + 225; 1800 / PI + 225; - (3600 / PI - 225)].
Proof.
  rewrite (scaled_wheel_degps_saturated _ _ example_saturates).
  unfold scale_factor. rewrite example_list_max, example_wheel_degps.
  reflexivity.
Qed.

Lemma example_body_to_wheel_raw :
  body_to_wheel_raw 0 1 90 default_wheel_radius default_base_radius default_max_raw
  = <["left_wheel" := 2599%Z]>
      (<["back_wheel" := 2599%Z]> (<["right_wheel" := 35768%Z]> ∅)).
Proof.
  unfold body_to_wheel_raw. rewrite example_scaled. cbn [map nth].
  pose proof PI_bounds as [Hlo Hhi]. pose proof example_inv_PI as [Hilo Hihi].
  assert (HPI : PI * / PI = 1) by (field; lra).
  set (c := 40960 / PI - 2560).
  assert (Hc : 10477 < c < 10479) by (unfold c, Rdiv; lra).
  assert (Hcpi : c * PI = 40960 - 2560 * PI) by (unfold c; field; lra).
  set (s := 3000 / c).
  assert (Hsc : s * c = 3000) by (unfold s; field; lra).
  assert (Hs : 0 < s).
  { unfold s. apply Rdiv_lt_0_compat; lra. }
  set (d1 := 1800 / PI + 225). set (d3 := 3600 / PI - 225).
  assert (Hd1 : d1 * PI = 1800 + 225 * PI) by (unfold d1; field; lra).
  assert (Hd3 : d3 * PI = 3600 - 225 * PI) by (unfold d3; field; lra).
  assert (Hd1pos : 0 < d1) by (unfold d1, Rdiv; lra).
  assert (Hd3pos : 0 < d3) by (unfold d3, Rdiv; lra).
  assert (Ha3 : d3 * steps_per_deg = c).
  { unfold d3, c, steps_per_deg. field. lra. }
  assert (Ha1 : d1 * steps_per_deg * PI = 20480 + 2560 * PI).
  { unfold d1, steps_per_deg. field. lra. }
  assert (Hleft : degps_to_raw (d1 * s) = 2599%Z).
  { rewrite (degps_to_raw_near _ 2599); [| lia |].
    - destruct (Rlt_dec (d1 * s) 0) as [Hneg|_]; [nra | reflexivity].
    - rewrite Rabs_right by nra.
      set (v := d1 * s * steps_per_deg).
      assert (Hv : v * (40960 - 2560 * PI) = 3000 * (20480 + 2560 * PI)).
      { unfold v. rewrite <- Hcpi, <- Ha1, <- Hsc. ring. }
      split; nra. }
  assert (Hright : degps_to_raw (- d3 * s) = 35768%Z).
  { rewrite (degps_to_raw_near _ 3000); [| lia |].
    - destruct (Rlt_dec (- d3 * s) 0) as [_|Hpos]; [reflexivity | nra].
    - replace (Rabs (- d3 * s) * steps_per_deg) with 3000; [lra|].
      rewrite Rabs_left by nra.
      replace (- (- d3 * s) * steps_per_deg) with (s * (d3 * steps_per_deg)) by ring.
      rewrite Ha3, Hsc. reflexivity. }
  rewrite Hleft, Hright. reflexivity.
Qed.

(** C6, the input on which the claim as stated fails: the command
    (0 m/s, 1 m/s, 90 deg/s) with the default radii and limit.  The naive
    magnitudes are about 9078.99 (left) and 10477.97 (right); scaled they
    are about 2599.45 and exactly 3000, and rounding gives 2599 and 3000:
    2599 / 3000 is not the ratio of the naive magnitudes. *)
Lemma saturation_changes_ratio :
  let ds := wheel_degps_of_body 0 1 90 default_wheel_radius default_base_radius in
  let naive := raw_floats ds in
  let out := body_to_wheel_raw 0 1 90 default_wheel_radius default_base_radius
               default_max_raw in
  saturates ds default_max_raw
  /\ out !! "left_wheel" = Some 2599%Z
  /\ out !! "right_wheel" = Some 35768%Z
  /\ raw_magnitude 2599 = 2599%Z
  /\ raw_magnitude 35768 = 3000%Z
  /\ naive !! 0%nat = Some (20480 / PI + 2560)
  /\ naive !! 2%nat = Some (40960 / PI - 2560)
  /\ IZR 2599 * (40960 / PI - 2560) <> IZR 3000 * (20480 / PI + 2560).
Proof.
  cbv zeta. rewrite example_body_to_wheel_raw, example_raw_floats.
  split; [exact example_saturates|].
  repeat split.
  pose proof example_inv_PI as [Hlo Hhi]. unfold Rdiv. lra.
Qed.

End Examples.

Section KinematicsWitnesses.
Local Open Scope R_scope.
Import Kinematics.

(** Turning on the spot at 90 deg/s: every wheel runs at 225 deg/s, 2560
    ticks, below the default limit of 3000. *)
Lemma example_spin_not_saturated :
  ~ saturates (wheel_degps_of_body 0 0 90 default_wheel_radius default_base_radius)
      default_max_raw.
Proof.
  assert (Hds : wheel_degps_of_body 0 0 90 default_wheel_radius default_base_radius
                = [225; 225; 225]).
  { rewrite wheel_degps_of_body_values.
    unfold default_wheel_radius, default_base_radius. pose proof PI_RGT_0.
    repeat (apply (f_equal2 cons)); try reflexivity; field; lra. }
  unfold saturates. rewrite Hds. cbn [raw_floats map]. rewrite list_max_3.
  rewrite (Rabs_right 225) by lra. unfold steps_per_deg, default_max_raw.
  set (a := 225 * (4096 / 360)).
  rewrite (Rmax_left a a) by lra. rewrite (Rmax_left a a) by lra.
  unfold a. lra.
Qed.

Lemma kinematics_round_trip_witness :
  exists x' y' theta',
    wheel_raw_to_body
      (body_to_wheel_raw 0 0 90 default_wheel_radius default_base_radius default_max_raw)
      default_wheel_radius default_base_radius
    = Some (x', y', theta')
    /\ Rabs (x' - 0) <= 2 * (half_tick_degps * (PI / 180) * default_wheel_radius) / sqrt 3
    /\ Rabs (y' - 0) <= 4 * (half_tick_degps * (PI / 180) * default_wheel_radius) / 3
    /\ Rabs (theta' - 90) <= half_tick_degps * default_wheel_radius / default_base_radius.
Proof.
  apply (kinematics_round_trip 0 0 90 default_wheel_radius default_base_radius
           default_max_raw).
  - unfold default_wheel_radius. lra.
  - unfold default_base_radius. lra.
  - unfold default_max_raw. lia.
  - exact example_spin_not_saturated.
Defined.

Lemma saturation_scaling_witness :
  0 <= scale_factor
         (wheel_degps_of_body 0 1 90 default_wheel_radius default_base_radius)
         default_max_raw < 1
  /\ exists raw,
       body_to_wheel_raw 0 1 90 default_wheel_radius default_base_radius default_max_raw
         !! "left_wheel" = Some raw
       /\ (raw_magnitude raw <= default_max_raw)%Z.
Proof.
  destruct (saturation_scaling 0 1 90 default_wheel_radius default_base_radius
              default_max_raw ltac:(unfold default_max_raw; lia) example_saturates)
    as (Hs & _ & _ & Hwheel).
  split; [exact Hs|].
  destruct (Hwheel 0%nat "left_wheel" (20480 / PI + 2560) eq_refl) as (raw & Hraw & Hle & _).
  - rewrite example_raw_floats. reflexivity.
  - exists raw. split; assumption.
Defined.

End KinematicsWitnesses.

(** ** The daemon *)

Section DaemonFacts.
Import Daemon.

Lemma raw_to_degps_zero : Kinematics.raw_to_degps 0 = 0%R.
Proof.
  unfold Kinematics.raw_to_degps.
  change (raw_magnitude 0) with 0. change (raw_negative 0) with false.
  unfold Kinematics.steps_per_deg. lra.
Qed.

Lemma wheel_raw_to_body_zero (wheel_raw : gmap string Z) (r b : R) :
  b <> 0%R -> Kinematics.raw_list wheel_raw = [0; 0; 0] ->
  Kinematics.wheel_raw_to_body wheel_raw r b = Some (0, 0, 0)%R.
Proof.
  intros Hb Hraw.
  rewrite (wheel_raw_to_body_values _ r b 0 0 0 Hb Hraw). cbv zeta.
  rewrite raw_to_degps_zero. pose proof sqrt3_pos. pose proof PI_RGT_0.
  repeat f_equal; field; lra.
Qed.

Lemma default_base_radius_nonzero : Kinematics.default_base_radius <> 0%R.
Proof. unfold Kinematics.default_base_radius. lra. Qed.

Lemma wheel_raw_to_body_default_total (wheel_raw : gmap string Z) :
  exists x y theta,
    Kinematics.wheel_raw_to_body wheel_raw
      Kinematics.default_wheel_radius Kinematics.default_base_radius
    = Some (x, y, theta).
Proof.
  pose proof (wheel_raw_to_body_values wheel_raw Kinematics.default_wheel_radius
                _ _ _ _ default_base_radius_nonzero eq_refl) as Hbody.
  cbv zeta in Hbody. eauto.
Qed.

(** What [get_data] returns is what the caches hold afterwards. *)
Lemma get_data_returns_cache (p : poll_result) (s : daemon) :
  (get_data p s).1 = cached (get_data p s).2.
Proof.
  destruct p as [|msgs]; [reflexivity|]. cbn [get_data].
  destruct (last msgs) as [[| |images speed arm]|]; try reflexivity.
  cbn [decode_message].
  destruct (decode_images images ∅) as [frames|e]; [|reflexivity].
  destruct arm; reflexivity.
Qed.

Lemma get_data_is_connected (p : poll_result) (s : daemon) :
  is_connected (get_data p s).2 = is_connected s
  /\ cameras (get_data p s).2 = cameras s.
Proof.
  destruct p as [|msgs]; [split; reflexivity|]. cbn [get_data].
  destruct (last msgs) as [[| |images speed arm]|]; try (split; reflexivity).
  cbn [decode_message].
  destruct (decode_images images ∅) as [frames|e]; [|split; reflexivity].
  destruct arm; split; reflexivity.
Qed.

(** On messages of the shapes [obs_message] covers, a connected daemon
    gets an observation: the state vector and one image per configured
    camera, taken from the snapshot of [get_data]. *)
Lemma get_observation_connected (p : poll_result) (s : daemon) :
  is_connected s = true ->
  exists x y theta,
    Kinematics.wheel_raw_to_body (get_data p s).1.1.2
      Kinematics.default_wheel_radius Kinematics.default_base_radius
    = Some (x, y, theta)
    /\ get_observation p s =
       (Ok (add_camera_frames (get_data p s).1.1.1 (cameras s)
              {[OBS_STATE :=
                  StateTensor ((get_data p s).1.2 ++ [x * 1000; y * 1000; theta]%R)]}),
        (get_data p s).2).
Proof.
  intros Hconn. unfold get_observation. rewrite Hconn. cbn [negb].
  destruct (get_data_is_connected p s) as [_ Hcams].
  destruct (get_data p s) as [[[frames speed] arm] s'] eqn:Hgd. cbn [fst snd] in *.
  destruct (wheel_raw_to_body_default_total speed) as (x & y & theta & Hbody).
  exists x, y, theta. rewrite Hbody, Hcams. split; reflexivity.
Qed.

Lemma image_key_inj (c1 c2 : string) :
  OBS_IMAGES +:+ "." +:+ c1 = OBS_IMAGES +:+ "." +:+ c2 -> c1 = c2.
Proof. cbn. intros H. injection H as H. exact H. Qed.

Lemma image_key_not_state (c : string) :
  OBS_IMAGES +:+ "." +:+ c <> OBS_STATE.
Proof. cbn. intros H. discriminate H. Qed.

Lemma add_camera_frames_other (frames : gmap string frame)
    (cams : list (string * (nat * nat * nat)))
    (obs_dict : gmap string obs_value) (key : string) :
  (forall cam, cam ∈ cams -> OBS_IMAGES +:+ "." +:+ cam.1 <> key) ->
  add_camera_frames frames cams obs_dict !! key = obs_dict !! key.
Proof.
  unfold add_camera_frames. revert obs_dict.
  induction cams as [|cam cams IH]; intros obs_dict Hne; [reflexivity|].
  cbn [fold_left]. rewrite IH.
  - apply lookup_insert_ne. apply Hne. left.
  - intros cam' Hin. apply Hne. right. exact Hin.
Qed.

Lemma add_camera_frames_state (frames : gmap string frame)
    (cams : list (string * (nat * nat * nat))) (obs_dict : gmap string obs_value) :
  add_camera_frames frames cams obs_dict !! OBS_STATE = obs_dict !! OBS_STATE.
Proof. apply add_camera_frames_other. intros cam _. apply image_key_not_state. Qed.

Lemma add_camera_frames_image (frames : gmap string frame)
    (cams : list (string * (nat * nat * nat)))
    (obs_dict : gmap string obs_value) (cam_name : string) (hwc : nat * nat * nat) :
  NoDup cams.*1 -> (cam_name, hwc) ∈ cams ->
  add_camera_frames frames cams obs_dict !! (OBS_IMAGES +:+ "." +:+ cam_name)
    = Some (ImageTensor (default (black_frame hwc) (frames !! cam_name))).
Proof.
  unfold add_camera_frames. revert obs_dict.
  induction cams as [|cam cams IH]; intros obs_dict Hnd Hin.
  - apply elem_of_nil in Hin as [].
  - cbn [fold_left]. rewrite fmap_cons in Hnd. apply NoDup_cons in Hnd as [Hnotin Hnd].
    apply elem_of_cons in Hin as [<-|Hin].
    + change (fold_left _ cams ?o) with (add_camera_frames frames cams o).
      rewrite add_camera_frames_other; [apply lookup_insert_eq|].
      intros cam' Hin' Heq. apply image_key_inj in Heq.
      apply Hnotin. cbn. rewrite <- Heq.
      apply list_elem_of_fmap. exists cam'. split; [reflexivity | exact Hin'].
    + apply IH; assumption.
Qed.

(** The image loop of [get_data]. *)
Lemma decode_images_ok (images : list (string * image_payload))
    (frames0 : gmap string frame) :
  (forall cam, (cam, PayloadRaises) ∉ images) ->
  exists frames,
    decode_images images frames0 = Ok frames
    /\ (forall cam, cam ∉ images.*1 -> frames !! cam = frames0 !! cam)
    /\ (forall cam p, NoDup images.*1 -> (cam, p) ∈ images ->
          frames !! cam =
            match payload_decodes p with
            | Some f => Some f
            | None => frames0 !! cam
            end).
Proof.
  revert frames0. induction images as [|[cam0 p0] images IH]; intros frames0 Hok.
  - exists frames0. split; [reflexivity|]. split; [reflexivity|].
    intros cam p _ Hin. apply elem_of_nil in Hin as [].
  - assert (Hok' : forall cam, (cam, PayloadRaises) ∉ images).
    { intros cam Hin. apply (Hok cam). right. exact Hin. }
    assert (Hp0 : p0 <> PayloadRaises).
    { intros ->. apply (Hok cam0). left. }
    cbn [decode_images].
    set (frames1 := match payload_decodes p0 with
                    | Some f => <[cam0 := f]> frames0
                    | None => frames0
                    end).
    assert (Hstep : decode_image frames0 cam0 p0 = Ok frames1).
    { destruct p0; try reflexivity. contradiction. }
    rewrite Hstep.
    destruct (IH frames1 Hok') as (frames & Hdec & Hout & Hin).
    exists frames. split; [exact Hdec|]. split.
    + intros cam Hnotin. rewrite fmap_cons in Hnotin.
      apply not_elem_of_cons in Hnotin as [Hne Hnotin].
      rewrite (Hout cam Hnotin). unfold frames1. cbn in Hne.
      destruct (payload_decodes p0); [apply lookup_insert_ne; congruence | reflexivity].
    + intros cam p Hnd Hel. rewrite fmap_cons in Hnd.
      apply NoDup_cons in Hnd as [Hnotin Hnd].
      apply elem_of_cons in Hel as [Heq|Hel].
      * injection Heq as -> ->. rewrite (Hout cam0 Hnotin). unfold frames1.
        destruct (payload_decodes p0); [apply lookup_insert_eq | reflexivity].
      * rewrite (Hin cam p Hnd Hel).
        assert (Hne : cam0 <> cam).
        { intros ->. apply Hnotin. apply list_elem_of_fmap.
          exists (cam, p). split; [reflexivity | exact Hel]. }
        destruct (payload_decodes p); [reflexivity|].
        unfold frames1.
        destruct (payload_decodes p0); [apply lookup_insert_ne; exact Hne | reflexivity].
Qed.

End DaemonFacts.

Section DaemonClaims.
Import Daemon.

(** C7.  [connect] on a connected daemon raises
    [DeviceAlreadyConnectedError] and leaves the object unchanged;
    [disconnect], [get_observation] and [send_action] on a disconnected
    daemon raise [DeviceNotConnectedError] (and leave it unchanged). *)
Theorem lifecycle_errors (s : daemon) :
  (is_connected s = true ->
     connect s = (Raise DeviceAlreadyConnectedError, s))
  /\ (is_connected s = false ->
        disconnect s = (Raise DeviceNotConnectedError, s)
        /\ (forall p, get_observation p s = (Raise DeviceNotConnectedError, s))
        /\ (forall ensure astype action,
              send_action ensure astype action s
              = (Raise DeviceNotConnectedError, s))).
Proof.
  split; intros Hconn.
  - unfold connect. rewrite Hconn. reflexivity.
  - unfold disconnect, get_observation, send_action. rewrite Hconn.
    repeat split.
Qed.

(** The scenario of the specification: [connect(); connect()] and
    [disconnect()] before any [connect()]. *)
Lemma lifecycle_errors_witness :
  let s0 := init [] None [] in
  let s1 := set_sockets s0 OpenSocket OpenSocket OpenSocket true in
  connect s0 = (Ok tt, s1)
  /\ connect s1 = (Raise DeviceAlreadyConnectedError, s1)
  /\ disconnect s0 = (Raise DeviceNotConnectedError, s0).
Proof.
  cbv zeta. split; [reflexivity|]. split.
  - apply (proj1 (lifecycle_errors _)). reflexivity.
  - apply (proj2 (lifecycle_errors _)). reflexivity.
Defined.

(** C8.  When the poll times out, [get_data] returns the three caches as
    they are and changes nothing; and whatever a call returned is what the
    next call returns on a timeout. *)
Theorem poll_timeout_reuses_cache (s : daemon) (p : poll_result) :
  get_data PollTimeout s = (cached s, s)
  /\ get_data PollTimeout (get_data p s).2 = get_data p s.
Proof.
  split; [reflexivity|]. cbn [get_data].
  rewrite <- get_data_returns_cache. destruct (get_data p s); reflexivity.
Qed.

(** C3, the failing input.  The caches hold an old frame for camera
    "front"; the message carries a decodable image for it and an arm state
    on which [torch.tensor] raises.  [self.last_frames] is assigned before
    the conversion raises, so the handler returns, and the cache keeps, the
    new frame next to the old speed and arm state. *)
Lemma decode_error_overwrites_frames :
  let old_frame := Frame (1, 1, 3)%nat [10; 20; 30]%N in
  let new_frame := Frame (1, 1, 3)%nat [11; 21; 31]%N in
  let s0 := set_last_frames
              (set_sockets (init [("front", (1, 1, 3)%nat)] None [])
                 OpenSocket OpenSocket OpenSocket true)
              {["front" := old_frame]} in
  let msg := Observation [("front", Jpeg new_frame)] ∅ ArmRaises in
  decode_message msg s0 = (Raise TensorError, set_last_frames s0 {["front" := new_frame]})
  /\ get_data (PollReady [msg]) s0
     = (({["front" := new_frame]}, last_present_speed s0, last_remote_arm_state s0),
        set_last_frames s0 {["front" := new_frame]})
  /\ cached s0 = ({["front" := old_frame]}, ∅, repeat 0%R 6)
  /\ last_frames (get_data (PollReady [msg]) s0).2 !! "front" = Some new_frame
  /\ last_frames s0 !! "front" = Some old_frame.
Proof. cbv zeta. repeat split. Qed.

(** Decoding errors raised before the cache is written do leave the three
    caches alone. *)
Lemma early_decode_error_keeps_cache (s : daemon) (msgs : list obs_message)
    (msg : obs_message) (e : exn) :
  decode_message msg s = (Raise e, s) ->
  get_data (PollReady (msgs ++ [msg])) s = (cached s, s).
Proof.
  intros Hdec. cbn [get_data]. rewrite last_snoc.
  destruct msg; [reflexivity | reflexivity |]. rewrite Hdec. reflexivity.
Qed.

(** A message with an arm state and no payload that raises: the frames it
    decodes replace the frame cache wholesale. *)
Lemma get_data_fresh (s : daemon) (msgs : list obs_message)
    (images : list (string * image_payload)) (speed : gmap string Z) (arm : list R) :
  (forall cam, (cam, PayloadRaises) ∉ images) ->
  exists frames,
    decode_images images ∅ = Ok frames
    /\ get_data (PollReady (msgs ++ [Observation images speed (ArmValues arm)])) s
       = ((frames, speed, arm),
          set_last_present_speed
            (set_last_remote_arm_state (set_last_frames s frames) arm) speed).
Proof.
  intros Hok. destruct (decode_images_ok images ∅ Hok) as (frames & Hdec & _).
  exists frames. split; [exact Hdec|].
  cbn [get_data]. rewrite last_snoc. cbn [decode_message]. rewrite Hdec. reflexivity.
Qed.

(** C1 (as amended).  A connected daemon receives a message with an arm
    state in which camera [cam_ok] carries a decodable image and camera
    [cam_bad] a payload that does not decode (and no payload raises).  The
    frame cache then holds the new frame for [cam_ok] and no entry for
    [cam_bad], whatever it held before; the observation carries the new
    frame for [cam_ok] and the black image of the configured shape for
    [cam_bad]. *)
Theorem partial_decode (s : daemon) (msgs : list obs_message)
    (images : list (string * image_payload)) (speed : gmap string Z)
    (arm : list R) (cam_ok cam_bad : string) (f : frame) (bad : image_payload) :
  is_connected s = true ->
  NoDup images.*1 ->
  (forall cam, (cam, PayloadRaises) ∉ images) ->
  (cam_ok, Jpeg f) ∈ images ->
  (cam_bad, bad) ∈ images ->
  payload_decodes bad = None ->
  exists obs s',
    get_observation
      (PollReady (msgs ++ [Observation images speed (ArmValues arm)])) s
    = (Ok obs, s')
    /\ last_frames s' !! cam_ok = Some f
    /\ last_frames s' !! cam_bad = None
    /\ (NoDup (cameras s).*1 ->
        (forall hwc, (cam_ok, hwc) ∈ cameras s ->
           obs !! (OBS_IMAGES +:+ "." +:+ cam_ok) = Some (ImageTensor f))
        /\ (forall hwc, (cam_bad, hwc) ∈ cameras s ->
              obs !! (OBS_IMAGES +:+ "." +:+ cam_bad)
              = Some (ImageTensor (black_frame hwc)))).
Proof.
  intros Hconn Hnd Hok Hin_ok Hin_bad Hbad.
  set (p := PollReady (msgs ++ [Observation images speed (ArmValues arm)])).
  destruct (get_observation_connected p s Hconn) as (x & y & theta & _ & Hobs).
  destruct (decode_images_ok images ∅ Hok) as (frames & Hdec & _ & Hlook).
  destruct (get_data_fresh s msgs images speed arm Hok) as (frames' & Hdec' & Hgd).
  rewrite Hdec in Hdec'. injection Hdec' as <-.
  fold p in Hgd. rewrite Hgd in Hobs. cbn [fst snd] in Hobs.
  pose proof (Hlook cam_ok (Jpeg f) Hnd Hin_ok) as Hf_ok. cbn in Hf_ok.
  pose proof (Hlook cam_bad bad Hnd Hin_bad) as Hf_bad.
  rewrite Hbad, lookup_empty in Hf_bad.
  eexists _, _. split; [exact Hobs|].
  split; [exact Hf_ok|]. split; [exact Hf_bad|].
  intros Hcams. split; intros hwc Hcam.
  - rewrite (add_camera_frames_image _ _ _ _ hwc Hcams Hcam), Hf_ok. reflexivity.
  - rewrite (add_camera_frames_image _ _ _ _ hwc Hcams Hcam), Hf_bad. reflexivity.
Qed.

End DaemonClaims.

Section DaemonExamples.
Import Daemon.

Lemma half_corrupt_images_ok :
  NoDup [("front", Undecodable); ("wrist", Jpeg new_wrist)].*1
  /\ (forall cam, (cam, PayloadRaises) ∉ [("front", Undecodable); ("wrist", Jpeg new_wrist)]).
Proof.
  split.
  - cbn. apply NoDup_cons. split; [|apply NoDup_singleton].
    intros Hin. apply list_elem_of_singleton in Hin. discriminate Hin.
  - intros cam Hin.
    apply elem_of_cons in Hin as [Heq|Hin]; [discriminate Heq|].
    apply list_elem_of_singleton in Hin. discriminate Hin.
Qed.

Lemma two_cameras_NoDup : NoDup (cameras two_cameras).*1.
Proof.
  cbn. apply NoDup_cons. split; [|apply NoDup_singleton].
  intros Hin. apply list_elem_of_singleton in Hin. discriminate Hin.
Qed.

Lemma partial_decode_witness :
  exists obs s',
    get_observation (PollReady ([] ++ [half_corrupt])) two_cameras = (Ok obs, s')
    /\ last_frames s' !! "wrist" = Some new_wrist
    /\ last_frames s' !! "front" = None.
Proof.
  destruct half_corrupt_images_ok as [Hnd Hok].
  destruct (partial_decode two_cameras [] _ ∅ (repeat 1%R 6)
              "wrist" "front" new_wrist Undecodable
              eq_refl Hnd Hok) as (obs & s' & Hobs & Hw & Hf & _).
  - right. left.
  - left.
  - reflexivity.
  - exists obs, s'. repeat split; assumption.
Defined.

(** C1, the input on which the claim as stated fails.  The daemon holds a
    cached frame for "front"; the message has an undecodable payload for
    "front", a valid one for "wrist" and an arm state.  The cache entry of
    "front" is dropped and the observation shows the black image for it,
    not the frame that was cached. *)
Lemma corrupt_camera_loses_cached_frame :
  exists obs s',
    get_observation (PollReady [half_corrupt]) two_cameras = (Ok obs, s')
    /\ last_frames two_cameras !! "front" = Some old_front
    /\ last_frames s' !! "front" = None
    /\ last_frames s' !! "wrist" = Some new_wrist
    /\ obs !! "observation.images.front"
       = Some (ImageTensor (Frame (1, 1, 3)%nat [0; 0; 0]%N))
    /\ obs !! "observation.images.wrist" = Some (ImageTensor new_wrist).
Proof.
  destruct (get_observation_connected (PollReady [half_corrupt]) two_cameras eq_refl)
    as (x & y & theta & _ & Hobs).
  eexists _, _. split; [exact Hobs|].
  split; [reflexivity|]. split; [reflexivity|]. split; [reflexivity|].
  split.
  - change "observation.images.front" with (OBS_IMAGES +:+ "." +:+ "front").
    rewrite (add_camera_frames_image _ _ _ "front" (1, 1, 3)%nat two_cameras_NoDup);
      [reflexivity | left].
  - change "observation.images.wrist" with (OBS_IMAGES +:+ "." +:+ "wrist").
    rewrite (add_camera_frames_image _ _ _ "wrist" (1, 1, 3)%nat two_cameras_NoDup);
      [reflexivity | right; left].
Qed.

(** C10.  [wheel_raw_to_body] reads a missing wheel key as the raw value
    0; and on a connected daemon whose present-speed cache is empty (no
    observation received yet), [get_observation] on a poll timeout succeeds
    and the state vector ends with the body velocity (0, 0, 0). *)
Theorem missing_wheel_keys_read_as_zero :
  (forall (wheel_raw : gmap string Z) (key : string) (r b : R),
     key ∈ Kinematics.wheel_names -> wheel_raw !! key = None ->
     Kinematics.wheel_raw_to_body wheel_raw r b
     = Kinematics.wheel_raw_to_body (<[key := 0]> wheel_raw) r b)
  /\ (forall s : daemon,
        is_connected s = true -> last_present_speed s = ∅ ->
        exists obs,
          get_observation PollTimeout s = (Ok obs, s)
          /\ obs !! OBS_STATE
             = Some (StateTensor (last_remote_arm_state s ++ [0; 0; 0]%R))).
Proof.
  split.
  - intros wheel_raw key r b Hkey Hnone.
    assert (Hraw : Kinematics.raw_list (<[key := 0]> wheel_raw)
                   = Kinematics.raw_list wheel_raw).
    { unfold Kinematics.raw_list.
      assert (Hget : forall k, default 0 (<[key := 0]> wheel_raw !! k)
                               = default 0 (wheel_raw !! k)).
      { intros k. destruct (decide (key = k)) as [<-|Hne].
        - rewrite lookup_insert_eq, Hnone. reflexivity.
        - rewrite lookup_insert_ne by exact Hne. reflexivity. }
      rewrite !Hget. reflexivity. }
    unfold Kinematics.wheel_raw_to_body. rewrite Hraw. reflexivity.
  - intros s Hconn Hempty.
    destruct (get_observation_connected PollTimeout s Hconn)
      as (x & y & theta & Hbody & Hobs).
    cbn [get_data cached fst snd] in Hbody, Hobs.
    rewrite Hempty in Hbody.
    assert (Hraw : Kinematics.raw_list ∅ = [0; 0; 0]).
    { unfold Kinematics.raw_list. rewrite !lookup_empty. reflexivity. }
    rewrite (wheel_raw_to_body_zero ∅ _ _ default_base_radius_nonzero Hraw) in Hbody.
    injection Hbody as <- <- <-.
    eexists. split; [exact Hobs|].
    rewrite add_camera_frames_state, lookup_singleton_eq.
    do 3 f_equal. repeat (apply (f_equal2 cons)); try reflexivity; lra.
Qed.

(** Before any observation: the daemon right after [__init__] and
    [connect]. *)
Lemma missing_wheel_keys_witness :
  let s0 := set_sockets (init [("front", (1, 1, 3)%nat)] None [])
              OpenSocket OpenSocket OpenSocket true in
  connect (init [("front", (1, 1, 3)%nat)] None []) = (Ok tt, s0)
  /\ exists obs,
       get_observation PollTimeout s0 = (Ok obs, s0)
       /\ obs !! OBS_STATE = Some (StateTensor (repeat 0%R 6 ++ [0; 0; 0]%R)).
Proof.
  cbv zeta. split; [reflexivity|].
  apply (proj2 missing_wheel_keys_read_as_zero); reflexivity.
Defined.

End DaemonExamples.

(** ** The remote agent *)

Section AgentFacts.
Import RemoteAgent.
Local Open Scope Q_scope.

Lemma calls_write_arm_positions (arm_positions : list Q) (a : agent) :
  calls (write_arm_positions arm_positions a)
  = calls a ++ map (fun mp => WriteGoalPosition mp.1 mp.2)
                   (zip arm_motor_ids arm_positions)
  /\ last_cmd_time (write_arm_positions arm_positions a) = last_cmd_time a.
Proof.
  unfold write_arm_positions. generalize (zip arm_motor_ids arm_positions).
  intros l. revert a. induction l as [|mp l IH]; intros a.
  - cbn. rewrite app_nil_r. split; reflexivity.
  - cbn [fold_left map]. destruct (IH (do_call (WriteGoalPosition mp.1 mp.2) a)) as [Hc Ht].
    rewrite Hc, Ht. cbn. rewrite <- app_assoc. split; reflexivity.
Qed.

Lemma dispatch_arm_calls (field : option arm_positions_field) (a : agent) :
  calls (dispatch_arm field a) = calls a ++ arm_writes field
  /\ last_cmd_time (dispatch_arm field a) = last_cmd_time a.
Proof.
  destruct field as [[|arm_positions]|]; cbn [dispatch_arm arm_writes];
    try (rewrite app_nil_r; split; reflexivity).
  destruct (length arm_positions <? length arm_motor_ids)%nat.
  - rewrite app_nil_r. split; reflexivity.
  - apply calls_write_arm_positions.
Qed.

Lemma handle_message_calls (now : Q) (arm : option arm_positions_field)
    (raw : option raw_velocity_field) (a : agent) :
  calls (handle_message now (Command arm raw) a)
  = calls a ++ arm_writes arm ++ wheel_writes raw.
Proof.
  cbn [handle_message]. destruct (dispatch_arm_calls arm a) as [Hc _].
  destruct raw as [[|raw_command]|]; cbn [dispatch_wheels wheel_writes];
    rewrite ?app_nil_r; try exact Hc.
  cbn. rewrite Hc, <- app_assoc. reflexivity.
Qed.

(** C9 (as amended).  A message never makes the loop fail, and the arm
    part of a message writes to the motors exactly when [arm_positions] is
    a list with at least as many entries as there are arm motors: then the
    first six entries are written, one per motor in order, and entries
    beyond the sixth are ignored; a shorter list, or a value that is not a
    list, writes nothing. *)
Theorem arm_positions_dispatch (now : Q) (arm : option arm_positions_field)
    (raw : option raw_velocity_field) (a : agent) :
  filter (fun c => is_arm_write c = true)
         (calls (handle_message now (Command arm raw) a))
  = filter (fun c => is_arm_write c = true) (calls a)
    ++ match arm with
       | Some (Positions arm_positions) =>
           if (length arm_positions <? 6)%nat then []
           else zip_with WriteGoalPosition arm_motor_ids (take 6 arm_positions)
       | Some NotAList | None => []
       end.
Proof.
  rewrite handle_message_calls, !filter_app.
  assert (Hwheel : filter (fun c => is_arm_write c = true) (wheel_writes raw) = []).
  { destruct raw as [[|raw_command]|]; reflexivity. }
  rewrite Hwheel, app_nil_r. f_equal.
  destruct arm as [[|arm_positions]|]; try reflexivity.
  cbn [arm_writes]. change (length arm_motor_ids) with 6%nat.
  destruct (Nat.ltb_spec (length arm_positions) 6) as [Hlt|Hge]; [reflexivity|].
  destruct arm_positions as [|p1 [|p2 [|p3 [|p4 [|p5 [|p6 rest]]]]]];
    cbn [length] in Hge; try lia.
  reflexivity.
Qed.

(** C9, the input on which the claim as stated fails: seven positions
    for six motors.  The lengths do not match, yet the first six positions
    are written. *)
Lemma longer_arm_positions_are_written :
  let arm_positions := [1; 2; 3; 4; 5; 6; 7] in
  (length arm_positions =? length arm_motor_ids)%nat = false
  /\ calls (handle_message 0 (Command (Some (Positions arm_positions)) None) (start 0))
     = [ WriteGoalPosition "shoulder_pan" 1; WriteGoalPosition "shoulder_lift" 2;
         WriteGoalPosition "elbow_flex" 3; WriteGoalPosition "wrist_flex" 4;
         WriteGoalPosition "wrist_roll" 5; WriteGoalPosition "gripper" 6 ].
Proof. cbv zeta. split; reflexivity. Qed.

End AgentFacts.

Section Watchdog.
Import RemoteAgent.
Local Open Scope Q_scope.

Lemma applied_do_call (c : call) (a : agent) :
  applied_wheel_command (do_call c a)
  = if is_wheel_call c then Some c else applied_wheel_command a.
Proof.
  unfold applied_wheel_command, do_call. cbn [calls].
  rewrite filter_app. destruct (is_wheel_call c) eqn:Hc.
  - rewrite filter_cons_True by exact Hc. rewrite filter_nil. apply last_snoc.
  - rewrite filter_cons_False by (rewrite Hc; discriminate).
    rewrite filter_nil, app_nil_r. reflexivity.
Qed.

Lemma applied_app_no_wheel (a : agent) (l : list call) (t : Q) :
  Forall (fun c => is_wheel_call c = false) l ->
  applied_wheel_command {| last_cmd_time := t; calls := calls a ++ l |}
  = applied_wheel_command a.
Proof.
  intros Hl. unfold applied_wheel_command. cbn [calls]. rewrite filter_app.
  assert (Hnil : filter (fun c => is_wheel_call c = true) l = []).
  { induction Hl as [|c l Hc _ IH]; [reflexivity|].
    rewrite filter_cons_False by (rewrite Hc; discriminate). exact IH. }
  rewrite Hnil, app_nil_r. reflexivity.
Qed.

Lemma dispatch_arm_applied (field : option arm_positions_field) (a : agent) :
  applied_wheel_command (dispatch_arm field a) = applied_wheel_command a
  /\ last_cmd_time (dispatch_arm field a) = last_cmd_time a.
Proof.
  destruct (dispatch_arm_calls field a) as [Hc Ht]. split; [|exact Ht].
  destruct (dispatch_arm field a) as [t cs]. cbn [calls last_cmd_time] in *. subst cs.
  apply applied_app_no_wheel.
  destruct field as [[|arm_positions]|]; cbn [arm_writes]; try constructor.
  destruct (length arm_positions <? length arm_motor_ids)%nat; [constructor|].
  apply Forall_forall. intros c Hin. apply list_elem_of_fmap in Hin as (mp & -> & _).
  reflexivity.
Qed.

(** What one message does to the watchdog's clock and to the wheel
    command in force. *)
Lemma handle_message_effect (now : Q) (msg : command) (a : agent) :
  if accepted msg
  then last_cmd_time (handle_message now msg a) = now
  else last_cmd_time (handle_message now msg a) = last_cmd_time a
       /\ applied_wheel_command (handle_message now msg a) = applied_wheel_command a.
Proof.
  destruct msg as [|arm raw]; [split; reflexivity|].
  destruct (dispatch_arm_applied arm a) as [Happ Ht].
  destruct raw as [[|raw_command]|]; cbn [accepted handle_message dispatch_wheels];
    first [reflexivity | split; assumption].
Qed.

Lemma drain_effect (now : Q) (msgs : list command) (a : agent) :
  let a' := fold_left (fun a msg => handle_message now msg a) msgs a in
  if existsb accepted msgs
  then last_cmd_time a' = now
  else last_cmd_time a' = last_cmd_time a
       /\ applied_wheel_command a' = applied_wheel_command a.
Proof.
  cbv zeta. revert a. induction msgs as [|msg msgs IH]; intros a.
  - cbn. split; reflexivity.
  - cbn [fold_left existsb]. specialize (IH (handle_message now msg a)).
    pose proof (handle_message_effect now msg a) as Hmsg.
    destruct (accepted msg); cbn [orb].
    + destruct (existsb accepted msgs); [exact IH|].
      destruct IH as [Ht _]. rewrite Ht. exact Hmsg.
    + destruct (existsb accepted msgs); [exact IH|].
      destruct IH as [Ht Happ], Hmsg as [Ht' Happ'].
      rewrite Ht, Happ. split; assumption.
Qed.

Lemma last_accepted_snoc (its : list (Q * list command)) (now : Q)
    (msgs : list command) :
  last_accepted (its ++ [(now, msgs)])
  = if existsb accepted msgs then Some now else last_accepted its.
Proof. unfold last_accepted. rewrite fold_left_app. reflexivity. Qed.

Lemma watchdog_fired (now : Q) (a : agent) :
  1 # 2 < now - last_cmd_time a ->
  last_cmd_time (watchdog now a) = now
  /\ applied_wheel_command (watchdog now a) = Some Stop.
Proof.
  intros Hlate. unfold watchdog.
  destruct (Qlt_le_dec (1 # 2) (now - last_cmd_time a)) as [_|Hle]; [|lra].
  split; [reflexivity|]. cbn [set_last_cmd_time].
  change {| last_cmd_time := now; calls := calls (do_call Stop a) |}
    with (set_last_cmd_time now (do_call Stop a)).
  unfold applied_wheel_command. cbn [calls set_last_cmd_time do_call].
  rewrite filter_app, filter_cons_True by reflexivity.
  rewrite filter_nil. apply last_snoc.
Qed.

Lemma watchdog_idle (now : Q) (a : agent) :
  now - last_cmd_time a <= 1 # 2 -> watchdog now a = a.
Proof.
  intros Hle. unfold watchdog.
  destruct (Qlt_le_dec (1 # 2) (now - last_cmd_time a)) as [Hlt|_]; [lra | reflexivity].
Qed.

Lemma watchdog_invariant_run (t0 : Q) (its : list (Q * list command)) :
  watchdog_invariant t0 its (run (start t0) its).
Proof.
  induction its as [|[now msgs] its IH] using rev_ind.
  - split; cbn; [lra | intros H; lra].
  - unfold run in *. rewrite fold_left_app. cbn [fold_left cycle].
    set (a := fold_left cycle its (start t0)) in *.
    pose proof (drain_effect now msgs a) as Hdrain. cbv zeta in Hdrain.
    set (a1 := fold_left (fun a msg => handle_message now msg a) msgs a) in *.
    unfold watchdog_invariant, reference_time in *.
    rewrite last_accepted_snoc.
    destruct (existsb accepted msgs).
    + rewrite (watchdog_idle now a1) by (rewrite Hdrain; lra).
      rewrite Hdrain. split; [lra | intros H; lra].
    + destruct Hdrain as [Ht Happ]. destruct IH as [Hle Hstop].
      set (T := match last_accepted its with Some T => T | None => t0 end) in *.
      destruct (Qlt_le_dec (1 # 2) (now - last_cmd_time a1)) as [Hlate|Hsoon].
      * destruct (watchdog_fired now a1 Hlate) as [Ht' Happ'].
        rewrite Ht', Happ'. rewrite Ht in Hlate. split; [lra | reflexivity].
      * rewrite (watchdog_idle now a1 Hsoon), Ht, Happ. split; assumption.
Qed.

Lemma drain_calls (now : Q) (msgs : list command) (a : agent) :
  calls (fold_left (fun a msg => handle_message now msg a) msgs a)
  = calls a ++ flat_map message_calls msgs.
Proof.
  revert a. induction msgs as [|msg msgs IH]; intros a.
  - cbn. rewrite app_nil_r. reflexivity.
  - cbn [fold_left flat_map]. rewrite IH, app_assoc. f_equal.
    destruct msg as [|arm raw]; [cbn; rewrite app_nil_r; reflexivity|].
    apply handle_message_calls.
Qed.

Lemma unaccepted_messages_no_wheel_call (msgs : list command) :
  existsb accepted msgs = false ->
  Forall (fun c => is_wheel_call c = false) (flat_map message_calls msgs).
Proof.
  induction msgs as [|msg msgs IH]; intros Hacc; [constructor|].
  cbn [existsb] in Hacc. apply orb_false_iff in Hacc as [Hmsg Hrest].
  cbn [flat_map]. apply Forall_app. split; [|apply IH, Hrest].
  destruct msg as [|arm raw]; [constructor|]. cbn [message_calls].
  apply Forall_app. split.
  - destruct arm as [[|arm_positions]|]; cbn [arm_writes]; try constructor.
    destruct (length arm_positions <? length arm_motor_ids)%nat; [constructor|].
    apply Forall_forall. intros c Hin.
    apply list_elem_of_fmap in Hin as (mp & -> & _). reflexivity.
  - destruct raw as [[|raw_command]|];
      [constructor | discriminate Hmsg | constructor].
Qed.

(** The calls of one iteration, in full. *)
Lemma cycle_calls_full (a : agent) (now : Q) (msgs : list command) :
  calls (cycle a (now, msgs))
  = calls a ++ flat_map message_calls msgs
    ++ (if existsb accepted msgs then []
        else if Qlt_le_dec (1 # 2) (now - last_cmd_time a) then [Stop] else []).
Proof.
  cbn [cycle].
  set (a1 := fold_left (fun a msg => handle_message now msg a) msgs a).
  pose proof (drain_calls now msgs a) as Hcalls. fold a1 in Hcalls.
  pose proof (drain_effect now msgs a) as Hdrain. cbv zeta in Hdrain. fold a1 in Hdrain.
  destruct (existsb accepted msgs).
  - rewrite (watchdog_idle now a1) by (rewrite Hdrain; lra).
    rewrite app_nil_r. exact Hcalls.
  - destruct Hdrain as [Ht _]. unfold watchdog. rewrite Ht.
    destruct (Qlt_le_dec (1 # 2) (now - last_cmd_time a)).
    + cbn [set_last_cmd_time do_call calls]. rewrite Hcalls, app_assoc. reflexivity.
    + rewrite app_nil_r. exact Hcalls.
Qed.

(** C2 (as amended).  In every iteration of the control loop at whose
    time [now] more than 0.5 s have passed since the last accepted wheel
    command (at time [T]): the wheel command in force once the iteration
    has run its watchdog is the stop command, whatever was commanded
    before; the iteration gives the robot no wheel command other than the
    stop; and it calls the stop itself exactly when more than 0.5 s have
    also passed since [last_cmd_time], which the watchdog resets each time
    it fires. *)
Theorem watchdog_forces_stop (t0 : Q) (its : list (Q * list command))
    (now : Q) (msgs : list command) (T : Q) :
  last_accepted (its ++ [(now, msgs)]) = Some T ->
  1 # 2 < now - T ->
  applied_wheel_command (run (start t0) (its ++ [(now, msgs)])) = Some Stop
  /\ exists made,
       calls (run (start t0) (its ++ [(now, msgs)]))
       = calls (run (start t0) its) ++ made
       /\ Forall (fun c => is_wheel_call c = true -> c = Stop) made
       /\ (Stop ∈ made <-> 1 # 2 < now - last_cmd_time (run (start t0) its)).
Proof.
  intros HT Hlate.
  pose proof (watchdog_invariant_run t0 (its ++ [(now, msgs)])) as [Hle Hstop].
  unfold reference_time in *. rewrite HT in *.
  rewrite last_accepted_snoc in HT.
  destruct (existsb accepted msgs) eqn:Hacc.
  { injection HT as <-. lra. }
  unfold run in *. rewrite fold_left_app in *. cbn [fold_left] in *.
  set (a := fold_left cycle its (start t0)) in *.
  split.
  - cbn [cycle] in *.
    set (a1 := fold_left (fun a msg => handle_message now msg a) msgs a) in *.
    destruct (Qlt_le_dec (1 # 2) (now - last_cmd_time a1)) as [Hfire|Hsoon].
    + apply (watchdog_fired now a1 Hfire).
    + rewrite (watchdog_idle now a1 Hsoon) in *. apply Hstop. lra.
  - pose proof (cycle_calls_full a now msgs) as Hcalls. rewrite Hacc in Hcalls.
    pose proof (unaccepted_messages_no_wheel_call msgs Hacc) as Hnone.
    assert (Hnot : Stop ∉ flat_map message_calls msgs).
    { intros Hin. rewrite Forall_forall in Hnone.
      specialize (Hnone Stop Hin). discriminate Hnone. }
    assert (Hweak : Forall (fun c => is_wheel_call c = true -> c = Stop)
                      (flat_map message_calls msgs)).
    { eapply Forall_impl; [exact Hnone|]. intros c Hc Hw. congruence. }
    eexists. split; [exact Hcalls|].
    destruct (Qlt_le_dec (1 # 2) (now - last_cmd_time a)) as [Hold|Hyoung].
    + split.
      * apply Forall_app. split; [exact Hweak|].
        constructor; [reflexivity | constructor].
      * split; [intros _; exact Hold|]. intros _.
        apply elem_of_app. right. apply list_elem_of_singleton. reflexivity.
    + rewrite app_nil_r. split; [exact Hweak|].
      split; [intros Hin; contradiction | intros Hold; lra].
Qed.

(** The scenario of the specification: wheel speeds 100, -100, 0 are
    commanded at time 0; at time 0.6 no further command has arrived. *)
Lemma watchdog_forces_stop_witness :
  let cmd := Command None
               (Some (Velocities
                        (<["wheel_1" := 100%Z]>
                           (<["wheel_2" := (-100)%Z]> (<["wheel_3" := 0%Z]> ∅))))) in
  applied_wheel_command (run (start 0) [(0, [cmd])])
    = Some (SetVelocity [100; -100; 0]%Z)
  /\ applied_wheel_command (run (start 0) ([(0, [cmd])] ++ [(6 # 10, [])]))
     = Some Stop.
Proof.
  cbv zeta. split; [reflexivity|].
  apply (watchdog_forces_stop 0 _ (6 # 10) [] 0); reflexivity.
Defined.

(** C2, the run on which the claim as stated fails.  Wheel speeds 100,
    -100, 0 are commanded at time 0 and nothing arrives afterwards.  The
    iteration at time 0.6 calls the stop and resets [last_cmd_time]; at the
    iteration at time 0.7 more than 0.5 s have passed since the last
    accepted command, yet that iteration applies no wheel command at all:
    the stop of the iteration before stays in force. *)
Lemma watchdog_stop_not_every_cycle :
  let cmd := Command None
               (Some (Velocities
                        (<["wheel_1" := 100%Z]>
                           (<["wheel_2" := (-100)%Z]> (<["wheel_3" := 0%Z]> ∅))))) in
  let its := [(0, [cmd]); (6 # 10, [])] in
  last_accepted (its ++ [(7 # 10, [])]) = Some 0
  /\ 1 # 2 < (7 # 10) - 0
  /\ calls (run (start 0) its) = [SetVelocity [100; -100; 0]%Z; Stop]
  /\ calls (run (start 0) (its ++ [(7 # 10, [])])) = calls (run (start 0) its)
  /\ last_cmd_time (run (start 0) its) = 6 # 10.
Proof. cbv zeta. repeat split. Qed.

End Watchdog.

(** * Further properties *)

(** ** Further properties of the codec *)

Lemma sign_bit_adds_exhaustive :
  all_from (Z.to_nat 32768) 0 sign_bit_adds_ok = true.
Proof. vm_compute. reflexivity. Qed.

Lemma sign_bit_adds (n : Z) :
  0 <= n <= 0x7FFF -> Z.lor n 0x8000 = n + 0x8000.
Proof.
  intros Hn. apply Z.eqb_eq.
  apply (all_from_spec _ _ _ sign_bit_adds_exhaustive). lia.
Qed.



Lemma raw_magnitude_range (raw : Z) : 0 <= raw_magnitude raw <= 0x7FFF.
Proof.
  assert (Hland : raw_magnitude raw = raw mod 32768).
  { unfold raw_magnitude. change 0x7FFF with (Z.ones 15).
    rewrite Z.land_ones by lia. reflexivity. }
  rewrite Hland. pose proof (Z.mod_pos_bound raw 32768 ltac:(lia)). lia.
Qed.

Lemma low_bits_mod (raw : Z) :
  raw_magnitude (raw mod 0x10000) = raw_magnitude raw
  /\ raw_negative (raw mod 0x10000) = raw_negative raw.
Proof.
  assert (Hmod : raw mod 0x10000 = Z.land raw (Z.ones 16)).
  { rewrite Z.land_ones by lia. reflexivity. }
  unfold raw_magnitude, raw_negative. rewrite Hmod, <- !Z.land_assoc.
  split; reflexivity.
Qed.

Section CodecExtras.
Local Open Scope R_scope.
Import Kinematics.

Lemma degps_to_raw_range (degps : R) : (0 <= degps_to_raw degps <= 0xFFFF)%Z.
Proof.
  pose proof (clamped_steps_range degps) as Hr.
  unfold degps_to_raw. fold (clamped_steps degps).
  pose proof (raw_magnitude_range (clamped_steps degps)) as Hm.
  unfold raw_magnitude in Hm.
  destruct (Rlt_dec degps 0); [rewrite (sign_bit_adds _ Hr)|]; lia.
Qed.

(** X1.  [degps_to_raw] always yields a 16-bit word; its magnitude is the
    speed in ticks rounded to the nearest integer and capped at 0x7FFF,
    and bit 15 is set exactly for negative speeds. *)
Theorem degps_to_raw_word (degps : R) :
  (0 <= degps_to_raw degps <= 0xFFFF)%Z
  /\ raw_magnitude (degps_to_raw degps)
     = Z.min (py_round (Rabs degps * steps_per_deg)) 0x7FFF
  /\ (raw_negative (degps_to_raw degps) = true <-> degps < 0).
Proof.
  pose proof (clamped_steps_range degps) as Hr.
  split; [|split].
  - apply degps_to_raw_range.
  - rewrite degps_to_raw_magnitude. unfold clamped_steps.
    destruct (Z.ltb_spec 0x7FFF (py_round (Rabs degps * steps_per_deg))); lia.
  - rewrite degps_to_raw_negative.
    destruct (Rlt_dec degps 0); split; intros H; try assumption;
      try reflexivity; try discriminate; contradiction.
Qed.

(** X2.  [raw_to_degps] reads only the low 16 bits of its argument, on
    floats and on reals alike, and never returns a speed above 0x7FFF
    ticks in magnitude. *)
Theorem raw_to_degps_low_bits (raw_speed : Z) :
  Codec64.raw_to_degps (raw_speed mod 0x10000) = Codec64.raw_to_degps raw_speed
  /\ raw_to_degps (raw_speed mod 0x10000) = raw_to_degps raw_speed
  /\ Rabs (raw_to_degps raw_speed) <= 0x7FFF / steps_per_deg.
Proof.
  destruct (low_bits_mod raw_speed) as [Hm Hs].
  split; [|split].
  - unfold Codec64.raw_to_degps. rewrite Hm, Hs. reflexivity.
  - unfold raw_to_degps. rewrite Hm, Hs. reflexivity.
  - unfold raw_to_degps. pose proof (raw_magnitude_range raw_speed) as [Hlo Hhi].
    apply IZR_le in Hlo, Hhi. pose proof steps_per_deg_pos as Hspd.
    assert (Hinv : 0 < / steps_per_deg) by (apply Rinv_0_lt_compat; exact Hspd).
    assert (Hd : 0 <= IZR (raw_magnitude raw_speed) / steps_per_deg
                 <= 0x7FFF / steps_per_deg).
    { unfold Rdiv. split; [apply Rmult_le_pos; lra|].
      apply Rmult_le_compat_r; lra. }
    destruct (raw_negative raw_speed); [rewrite Rabs_Ropp|];
      rewrite Rabs_right by lra; lra.
Qed.

(** X3.  Encoding then decoding quantises and clamps: a speed of at most
    0x7FFF ticks comes back within half a tick of itself; a faster one
    comes back as 0x7FFF ticks; the sign bit follows the sign. *)
Theorem encode_decode_quantises (degps : R) :
  (Rabs degps * steps_per_deg <= 0x7FFF ->
     Rabs (raw_to_degps (degps_to_raw degps) - degps) <= half_tick_degps)
  /\ (0x7FFF <= Rabs degps * steps_per_deg ->
        Rabs (raw_to_degps (degps_to_raw degps)) = 0x7FFF / steps_per_deg)
  /\ (degps < 0 -> raw_to_degps (degps_to_raw degps) <= 0)
  /\ (0 <= degps -> 0 <= raw_to_degps (degps_to_raw degps)).
Proof.
  pose proof steps_per_deg_pos as Hspd.
  assert (Hinv : 0 < / steps_per_deg) by (apply Rinv_0_lt_compat; exact Hspd).
  pose proof (clamped_steps_range degps) as [Hlo Hhi].
  apply IZR_le in Hlo, Hhi.
  assert (Hmag : 0 <= IZR (clamped_steps degps) / steps_per_deg).
  { unfold Rdiv. apply Rmult_le_pos; lra. }
  split; [exact (raw_to_degps_error degps)|]. split; [|split].
  - intros Hbig. unfold raw_to_degps.
    rewrite degps_to_raw_magnitude.
    assert (Hc : clamped_steps degps = 0x7FFF%Z).
    { unfold clamped_steps.
      assert (0x7FFF <= py_round (Rabs degps * steps_per_deg))%Z.
      { rewrite <- (py_round_IZR 0x7FFF) at 1. apply py_round_mono, Hbig. }
      destruct (Z.ltb_spec 0x7FFF (py_round (Rabs degps * steps_per_deg))); lia. }
    rewrite Hc in *.
    destruct (raw_negative (degps_to_raw degps)); [rewrite Rabs_Ropp|];
      apply Rabs_right; lra.
  - intros Hneg. unfold raw_to_degps.
    rewrite degps_to_raw_magnitude, degps_to_raw_negative.
    destruct (Rlt_dec degps 0); [lra | contradiction].
  - intros Hpos. unfold raw_to_degps.
    rewrite degps_to_raw_magnitude, degps_to_raw_negative.
    destruct (Rlt_dec degps 0); [lra | exact Hmag].
Qed.

End CodecExtras.

(** ** Further properties of the kinematics *)

Section KinematicsExtras.
Local Open Scope R_scope.
Import Kinematics.

Lemma wheel_degps_of_body_length (x y theta r b : R) :
  length (wheel_degps_of_body x y theta r b) = 3%nat.
Proof. rewrite wheel_degps_of_body_values. reflexivity. Qed.

Lemma scaled_wheel_degps_length (ds : list R) (max_raw : Z) :
  length (scaled_wheel_degps ds max_raw) = length ds.
Proof.
  unfold scaled_wheel_degps. destruct (Rgt_dec _ _); [apply length_map | reflexivity].
Qed.

(** After the scaling step no wheel asks for more than [max_raw] ticks. *)
Lemma scaled_wheel_degps_bound (ds : list R) (max_raw : Z) (d : R) :
  (0 <= max_raw)%Z -> In d (scaled_wheel_degps ds max_raw) ->
  Rabs d * steps_per_deg <= IZR max_raw.
Proof.
  intros Hm Hin.
  destruct (Rgt_dec (list_max (raw_floats ds)) (IZR max_raw)) as [Hsat|Hns].
  - rewrite (scaled_wheel_degps_saturated ds max_raw Hsat) in Hin.
    apply in_map_iff in Hin as (d0 & <- & Hin0).
    apply (scaled_raw_float_le ds max_raw d0 Hm Hsat Hin0).
  - rewrite (scaled_wheel_degps_unsaturated ds max_raw Hns) in Hin.
    assert (Hle : Rabs d * steps_per_deg <= list_max (raw_floats ds)).
    { apply list_max_ge. unfold raw_floats.
      apply (in_map (fun degps => Rabs degps * steps_per_deg)), Hin. }
    lra.
Qed.

Lemma body_to_wheel_raw_dom (x y theta r b : R) (max_raw : Z) :
  dom (body_to_wheel_raw x y theta r b max_raw)
  = ({["left_wheel"; "back_wheel"; "right_wheel"]} : gset string).
Proof.
  unfold body_to_wheel_raw. rewrite !dom_insert_L, dom_empty_L.
  rewrite (right_id_L ∅ (∪)), <- !(assoc_L (∪)). reflexivity.
Qed.

(** X4.  For a non-negative [max_raw], [body_to_wheel_raw] returns a
    dictionary with exactly the keys "left_wheel", "back_wheel" and
    "right_wheel", each holding a 16-bit word whose magnitude is at most
    [max_raw] and at most 0x7FFF, whether or not the scaling step ran.
    (Real-number model; a [wheel_radius] of 0, on which numpy yields
    infinities and the rounding raises, is excluded.) *)
Theorem body_to_wheel_raw_bounded (x y theta r b : R) (max_raw : Z) :
  r <> 0 -> (0 <= max_raw)%Z ->
  dom (body_to_wheel_raw x y theta r b max_raw)
  = ({["left_wheel"; "back_wheel"; "right_wheel"]} : gset string)
  /\ (forall (i : nat) (key : string),
        wheel_names !! i = Some key ->
        exists raw,
          body_to_wheel_raw x y theta r b max_raw !! key = Some raw
          /\ (0 <= raw <= 0xFFFF)%Z
          /\ (raw_magnitude raw <= Z.min max_raw 0x7FFF)%Z).
Proof.
  intros _ Hm. split; [apply body_to_wheel_raw_dom|].
  intros i key Hkey.
  rewrite (body_to_wheel_raw_lookup _ _ _ _ _ _ i key Hkey).
  set (ds := scaled_wheel_degps (wheel_degps_of_body x y theta r b) max_raw).
  assert (Hi : (i < length ds)%nat).
  { unfold ds. rewrite scaled_wheel_degps_length, wheel_degps_of_body_length.
    apply lookup_lt_Some in Hkey. exact Hkey. }
  destruct (lookup_lt_is_Some_2 ds i Hi) as [d Hd]. rewrite Hd. cbn.
  exists (degps_to_raw d). split; [reflexivity|]. split; [apply degps_to_raw_range|].
  assert (Hin : In d ds).
  { apply list_elem_of_In, list_elem_of_lookup. eauto. }
  pose proof (scaled_wheel_degps_bound _ _ _ Hm Hin) as Hle.
  rewrite degps_to_raw_magnitude. unfold clamped_steps.
  assert (py_round (Rabs d * steps_per_deg) <= max_raw)%Z.
  { rewrite <- (py_round_IZR max_raw). apply py_round_mono, Hle. }
  destruct (Z.ltb_spec 0x7FFF (py_round (Rabs d * steps_per_deg))); lia.
Qed.

Lemma body_to_wheel_raw_bounded_witness :
  exists raw,
    body_to_wheel_raw 0 1 90 default_wheel_radius default_base_radius default_max_raw
      !! "right_wheel" = Some raw
    /\ (0 <= raw <= 0xFFFF)%Z
    /\ (raw_magnitude raw <= Z.min default_max_raw 0x7FFF)%Z.
Proof.
  apply (proj2 (body_to_wheel_raw_bounded 0 1 90 default_wheel_radius
                  default_base_radius default_max_raw
                  ltac:(unfold default_wheel_radius; lra)
                  ltac:(unfold default_max_raw; lia)) 2%nat).
  reflexivity.
Defined.

(** X5.  A pure rotation (no linear velocity) gives the three wheels one
    and the same raw command, for every turning rate, radius and
    non-negative limit. *)
Theorem pure_rotation_equal_wheels (theta r b : R) (max_raw : Z) :
  r <> 0 -> (0 <= max_raw)%Z ->
  exists raw,
    body_to_wheel_raw 0 0 theta r b max_raw
    = <["left_wheel" := raw]> (<["back_wheel" := raw]> (<["right_wheel" := raw]> ∅)).
Proof.
  intros _ _. unfold body_to_wheel_raw.
  assert (Hds : exists d, wheel_degps_of_body 0 0 theta r b = [d; d; d]).
  { exists (b * (theta * (PI / 180)) / r * (180 / PI)).
    rewrite wheel_degps_of_body_values.
    repeat (apply (f_equal2 cons)); try reflexivity;
      (do 2 f_equal; ring). }
  destruct Hds as [d ->].
  assert (Hsc : exists d', scaled_wheel_degps [d; d; d] max_raw = [d'; d'; d']).
  { unfold scaled_wheel_degps. destruct (Rgt_dec _ _); eexists; reflexivity. }
  destruct Hsc as [d' ->].
  exists (degps_to_raw d'). reflexivity.
Qed.

Lemma pure_rotation_equal_wheels_witness :
  exists raw,
    body_to_wheel_raw 0 0 90 default_wheel_radius default_base_radius default_max_raw
    = <["left_wheel" := raw]> (<["back_wheel" := raw]> (<["right_wheel" := raw]> ∅)).
Proof.
  apply pure_rotation_equal_wheels.
  - unfold default_wheel_radius. lra.
  - unfold default_max_raw. lia.
Defined.

End KinematicsExtras.

Section KinematicsSymmetry.
Local Open Scope R_scope.
Import Kinematics.

Lemma wheel_degps_of_body_opp (x y theta r b : R) :
  wheel_degps_of_body (- x) (- y) (- theta) r b
  = map Ropp (wheel_degps_of_body x y theta r b).
Proof.
  rewrite !wheel_degps_of_body_values. cbn [map].
  repeat (apply (f_equal2 cons)); try reflexivity;
    unfold Rdiv; ring.
Qed.

Lemma raw_floats_opp (ds : list R) : raw_floats (map Ropp ds) = raw_floats ds.
Proof.
  unfold raw_floats. rewrite map_map. apply map_ext. intros d.
  rewrite Rabs_Ropp. reflexivity.
Qed.

Lemma scaled_wheel_degps_opp (ds : list R) (max_raw : Z) :
  scaled_wheel_degps (map Ropp ds) max_raw = map Ropp (scaled_wheel_degps ds max_raw).
Proof.
  unfold scaled_wheel_degps. rewrite raw_floats_opp.
  destruct (Rgt_dec _ _); [|reflexivity].
  rewrite !map_map. apply map_ext. intros d. ring.
Qed.

Lemma clamped_steps_opp (d : R) : clamped_steps (- d) = clamped_steps d.
Proof. unfold clamped_steps. rewrite Rabs_Ropp. reflexivity. Qed.

Lemma clamped_steps_zero : clamped_steps 0 = 0%Z.
Proof.
  unfold clamped_steps. rewrite Rabs_R0, Rmult_0_l, (py_round_IZR 0). reflexivity.
Qed.

(** X6.  Reversing the body command reverses every wheel: the raw
    magnitudes stay as they are and, for every wheel whose magnitude is
    not 0, the sign bit flips. *)
Theorem reversed_command_reverses_wheels (x y theta r b : R) (max_raw : Z)
    (i : nat) (key : string) :
  r <> 0 -> (0 <= max_raw)%Z ->
  wheel_names !! i = Some key ->
  exists raw raw',
    body_to_wheel_raw x y theta r b max_raw !! key = Some raw
    /\ body_to_wheel_raw (- x) (- y) (- theta) r b max_raw !! key = Some raw'
    /\ raw_magnitude raw' = raw_magnitude raw
    /\ (raw_magnitude raw <> 0%Z -> raw_negative raw' = negb (raw_negative raw)).
Proof.
  intros _ _ Hkey.
  rewrite !(body_to_wheel_raw_lookup _ _ _ _ _ _ i key Hkey).
  rewrite wheel_degps_of_body_opp, scaled_wheel_degps_opp, list_lookup_fmap.
  set (ds := scaled_wheel_degps (wheel_degps_of_body x y theta r b) max_raw).
  assert (Hi : (i < length ds)%nat).
  { unfold ds. rewrite scaled_wheel_degps_length, wheel_degps_of_body_length.
    apply lookup_lt_Some in Hkey. exact Hkey. }
  destruct (lookup_lt_is_Some_2 ds i Hi) as [d Hd]. rewrite Hd. cbn.
  exists (degps_to_raw d), (degps_to_raw (- d)).
  split; [reflexivity|]. split; [reflexivity|].
  rewrite !degps_to_raw_magnitude, !degps_to_raw_negative, clamped_steps_opp.
  split; [reflexivity|]. intros Hnz.
  assert (Hd0 : d <> 0).
  { intros ->. apply Hnz, clamped_steps_zero. }
  destruct (Rlt_dec (- d) 0), (Rlt_dec d 0); try reflexivity; lra.
Qed.

Lemma reversed_command_witness :
  exists raw raw',
    body_to_wheel_raw 0 1 90 default_wheel_radius default_base_radius default_max_raw
      !! "left_wheel" = Some raw
    /\ body_to_wheel_raw (- 0) (- 1) (- 90) default_wheel_radius default_base_radius
         default_max_raw !! "left_wheel" = Some raw'
    /\ raw_magnitude raw' = raw_magnitude raw
    /\ (raw_magnitude raw <> 0%Z -> raw_negative raw' = negb (raw_negative raw)).
Proof.
  apply (reversed_command_reverses_wheels 0 1 90 default_wheel_radius
           default_base_radius default_max_raw 0%nat "left_wheel").
  - unfold default_wheel_radius. lra.
  - unfold default_max_raw. lia.
  - reflexivity.
Defined.





(** X8.  [wheel_raw_to_body] fails (numpy finds the matrix singular)
    exactly when [base_radius] is 0; any other radius gives a result for
    every dictionary. *)
Theorem wheel_raw_to_body_defined (wheel_raw : gmap string Z) (r b : R) :
  wheel_raw_to_body wheel_raw r b = None <-> b = 0.
Proof.
  split.
  - intros Hnone. destruct (Req_dec_T b 0) as [H0|Hb]; [exact H0|].
    pose proof (wheel_raw_to_body_values wheel_raw r b _ _ _ Hb eq_refl) as Hsome.
    cbv zeta in Hsome. rewrite Hsome in Hnone. discriminate Hnone.
  - intros ->. unfold wheel_raw_to_body.
    assert (Hinv : inv3 (kinematic_matrix 0) = None).
    { pose proof (kinematic_matrix_det 0) as Hdet.
      revert Hdet. rewrite kinematic_matrix_values. intros Hdet.
      unfold inv3. destruct (Req_dec_T _ 0) as [_|Hne]; [reflexivity|].
      exfalso. apply Hne. rewrite Hdet. ring. }
    rewrite Hinv. reflexivity.
Qed.

End KinematicsSymmetry.

(** ** Further properties of the daemon *)

Section DaemonExtras.
Import Daemon.

(** X9.  A message whose arm state is absent (or null) is ignored as a
    whole, whatever images and speeds it carries: [get_data] returns the
    cached snapshot and changes nothing. *)
Theorem message_without_arm_state_ignored (s : daemon) (msgs : list obs_message)
    (images : list (string * image_payload)) (speed : gmap string Z) :
  get_data (PollReady (msgs ++ [Observation images speed ArmNone])) s = (cached s, s).
Proof.
  cbn [get_data]. rewrite last_snoc. cbn [decode_message].
  destruct (decode_images images ∅); reflexivity.
Qed.

(** X10.  [get_data] assigns nothing but the three caches: the cameras,
    the sockets, the connection flag and the actuator fields are the same
    after any call. *)
Theorem get_data_keeps_session (p : poll_result) (s : daemon) :
  same_session s (get_data p s).2.
Proof.
  unfold same_session.
  destruct p as [|msgs]; [repeat split|]. cbn [get_data].
  destruct (last msgs) as [[| |images speed arm]|]; try solve [repeat split].
  cbn [decode_message].
  destruct (decode_images images ∅) as [frames|e]; [|repeat split].
  destruct arm; repeat split.
Qed.

Lemma decode_images_payloads (images : list (string * image_payload))
    (frames : gmap string frame) :
  (forall cam, (cam, PayloadRaises) ∉ images) ->
  decode_images images ∅ = Ok frames ->
  (forall cam, cam ∉ images.*1 -> frames !! cam = None)
  /\ (NoDup images.*1 ->
      forall cam f, frames !! cam = Some f <-> (cam, Jpeg f) ∈ images).
Proof.
  intros Hok Hdec.
  destruct (decode_images_ok images ∅ Hok) as (frames' & Hdec' & Hout & Hin).
  rewrite Hdec in Hdec'. injection Hdec' as <-.
  split.
  - intros cam Hnotin. rewrite (Hout cam Hnotin). apply lookup_empty.
  - intros Hnd cam f. split.
    + intros Hf.
      destruct (decide (cam ∈ images.*1)) as [Hel|Hnel].
      * apply list_elem_of_fmap in Hel as ([cam' p] & -> & Hel). cbn in *.
        rewrite (Hin cam' p Hnd Hel), lookup_empty in Hf.
        destruct p; cbn in Hf; try discriminate Hf.
        injection Hf as <-. exact Hel.
      * rewrite (Hout cam Hnel), lookup_empty in Hf. discriminate Hf.
    + intros Hel. rewrite (Hin cam (Jpeg f) Hnd Hel). reflexivity.
Qed.

(** X11.  A message with an arm state (and no payload that raises)
    replaces all three caches, with no merge: the snapshot returned and
    cached consists of the frames decoded from this message alone, its
    speeds and its arm state, so it does not depend on what was cached, and
    a camera the message does not carry has no cached frame afterwards. *)
Theorem fresh_message_replaces_caches (s : daemon) (msgs : list obs_message)
    (images : list (string * image_payload)) (speed : gmap string Z) (arm : list R) :
  (forall cam, (cam, PayloadRaises) ∉ images) ->
  exists frames,
    (get_data (PollReady (msgs ++ [Observation images speed (ArmValues arm)])) s).1
    = (frames, speed, arm)
    /\ cached (get_data (PollReady (msgs ++ [Observation images speed (ArmValues arm)])) s).2
       = (frames, speed, arm)
    /\ decode_images images ∅ = Ok frames
    /\ (forall cam, cam ∉ images.*1 -> frames !! cam = None)
    /\ (NoDup images.*1 ->
        forall cam f, frames !! cam = Some f <-> (cam, Jpeg f) ∈ images).
Proof.
  intros Hok.
  destruct (get_data_fresh s msgs images speed arm Hok) as (frames & Hdec & Hgd).
  exists frames. rewrite Hgd. split; [reflexivity|]. split; [reflexivity|].
  split; [exact Hdec|]. apply (decode_images_payloads images frames Hok Hdec).
Qed.

Lemma fresh_message_witness :
  exists frames,
    (get_data (PollReady ([] ++ [half_corrupt])) two_cameras).1
    = (frames, ∅, repeat 1%R 6)
    /\ frames !! "front" = None.
Proof.
  destruct (fresh_message_replaces_caches two_cameras []
              [("front", Undecodable); ("wrist", Jpeg new_wrist)] ∅ (repeat 1%R 6)
              (proj2 half_corrupt_images_ok))
    as (frames & Hsnap & _ & Hdec & _).
  exists frames. split; [exact Hsnap|].
  cbn in Hdec. injection Hdec as <-. reflexivity.
Defined.

Lemma add_camera_frames_dom (frames : gmap string frame)
    (cams : list (string * (nat * nat * nat))) (obs_dict : gmap string obs_value) :
  dom (add_camera_frames frames cams obs_dict)
  = dom obs_dict ∪ list_to_set (map (fun cam => OBS_IMAGES +:+ "." +:+ cam.1) cams).
Proof.
  unfold add_camera_frames. revert obs_dict.
  induction cams as [|cam cams IH]; intros obs_dict.
  - cbn. rewrite (right_id_L ∅ (∪)). reflexivity.
  - cbn [fold_left map list_to_set]. rewrite IH, dom_insert_L.
    rewrite (comm_L (∪) {[_]} (dom obs_dict)), <- (assoc_L (∪)). reflexivity.
Qed.

Lemma add_camera_frames_camera (frames : gmap string frame)
    (cams : list (string * (nat * nat * nat))) (obs_dict : gmap string obs_value)
    (cam : string * (nat * nat * nat)) :
  cam ∈ cams ->
  exists f,
    add_camera_frames frames cams obs_dict !! (OBS_IMAGES +:+ "." +:+ cam.1)
    = Some (ImageTensor f).
Proof.
  unfold add_camera_frames.
  induction cams as [|c cams IH] using rev_ind; intros Hin.
  - apply elem_of_nil in Hin as [].
  - rewrite fold_left_app. cbn [fold_left].
    destruct (decide (c.1 = cam.1)) as [Heq|Hne].
    + rewrite Heq, lookup_insert_eq. eauto.
    + rewrite lookup_insert_ne.
      * apply IH. apply elem_of_app in Hin as [Hin|Hin]; [exact Hin|].
        apply list_elem_of_singleton in Hin. subst c. contradiction.
      * intros Hkey. apply image_key_inj in Hkey. contradiction.
Qed.

(** X12.  Whenever [get_observation] returns an observation, the daemon
    was connected and the observation has exactly one entry for the state
    and one image per configured camera, whatever arrived: the state is
    the arm state of the snapshot followed by three body-velocity entries,
    and every configured camera has an image, be it a frame of the
    snapshot or the black one. *)
Theorem observation_shape (p : poll_result) (s s' : daemon)
    (obs : gmap string obs_value) :
  get_observation p s = (Ok obs, s') ->
  is_connected s = true
  /\ s' = (get_data p s).2
  /\ dom obs = (list_to_set (observation_keys (cameras s)) : gset string)
  /\ (exists body,
        length body = 3%nat
        /\ obs !! OBS_STATE = Some (StateTensor ((get_data p s).1.2 ++ body)))
  /\ (forall cam, cam ∈ cameras s ->
        exists f, obs !! (OBS_IMAGES +:+ "." +:+ cam.1) = Some (ImageTensor f)).
Proof.
  intros Hres.
  destruct (is_connected s) eqn:Hconn.
  2: { unfold get_observation in Hres. rewrite Hconn in Hres. discriminate Hres. }
  destruct (get_observation_connected p s Hconn) as (x & y & theta & _ & Hobs).
  rewrite Hobs in Hres. injection Hres as <- <-.
  split; [reflexivity|]. split; [reflexivity|]. split; [|split].
  - rewrite add_camera_frames_dom, dom_singleton_L. unfold observation_keys.
    cbn [list_to_set]. reflexivity.
  - exists [x * 1000; y * 1000; theta]%R. split; [reflexivity|].
    rewrite add_camera_frames_state. apply lookup_singleton_eq.
  - intros cam Hcam. apply add_camera_frames_camera, Hcam.
Qed.

End DaemonExtras.

Section DaemonSession.
Import Daemon.

(** X13.  A session can be closed and opened again, and the caches
    outlive it: from a disconnected daemon, [connect], [disconnect] and
    [connect] again all succeed, and the daemon ends connected with the
    three caches it started with.  [__del__] never raises and leaves the
    daemon disconnected, its caches untouched. *)
Theorem session_reopens (s : daemon) :
  (is_connected s = false ->
   exists s1 s2 s3,
     connect s = (Ok tt, s1) /\ disconnect s1 = (Ok tt, s2)
     /\ connect s2 = (Ok tt, s3)
     /\ is_connected s1 = true /\ is_connected s2 = false
     /\ is_connected s3 = true /\ s3 = s1
     /\ cached s3 = cached s)
  /\ (exists s', del s = (Ok tt, s')
                 /\ is_connected s' = false /\ cached s' = cached s).
Proof.
  split.
  - intros Hconn. unfold connect at 1. rewrite Hconn.
    eexists _, _, _. split; [reflexivity|]. split; [reflexivity|].
    repeat split.
  - unfold del, disconnect. destruct (is_connected s) eqn:Hconn; cbn [negb].
    + eexists. repeat split.
    + eexists. split; [reflexivity|]. split; [exact Hconn | reflexivity].
Qed.

(** X14.  The daemon reads the speeds the remote agent publishes as
    zero: the agent's ["present_speed"] has the keys "1", "2", "3", while
    [wheel_raw_to_body] looks up "left_wheel", "back_wheel" and
    "right_wheel".  So for every observation built by the agent the state
    vector of [get_observation] ends in the body velocity (0, 0, 0),
    whatever the wheel speeds are, though the speeds are cached as sent. *)
Theorem published_speeds_read_as_zero (s : daemon) (msgs : list obs_message)
    (images : list (string * image_payload)) (current_velocity : gmap string Z)
    (arm : list R) :
  is_connected s = true ->
  (forall cam, (cam, PayloadRaises) ∉ images) ->
  exists obs s',
    get_observation
      (PollReady (msgs ++ [Observation images
                             (RemoteAgent.present_speed_field current_velocity)
                             (ArmValues arm)])) s
    = (Ok obs, s')
    /\ last_present_speed s' = RemoteAgent.present_speed_field current_velocity
    /\ obs !! OBS_STATE = Some (StateTensor (arm ++ [0; 0; 0]%R)).
Proof.
  intros Hconn Hok.
  set (p := PollReady _).
  destruct (get_observation_connected p s Hconn) as (x & y & theta & Hbody & Hobs).
  destruct (get_data_fresh s msgs images
              (RemoteAgent.present_speed_field current_velocity) arm Hok)
    as (frames & _ & Hgd).
  fold p in Hgd. rewrite Hgd in Hobs, Hbody. cbn [fst snd] in Hobs, Hbody.
  assert (Hraw : Kinematics.raw_list (RemoteAgent.present_speed_field current_velocity)
                 = [0; 0; 0]).
  { unfold Kinematics.raw_list, RemoteAgent.present_speed_field.
    rewrite !lookup_insert_ne by done. rewrite !lookup_empty. reflexivity. }
  rewrite (wheel_raw_to_body_zero _ _ _ default_base_radius_nonzero Hraw) in Hbody.
  injection Hbody as <- <- <-.
  eexists _, _. split; [exact Hobs|]. split; [reflexivity|].
  rewrite add_camera_frames_state, lookup_singleton_eq.
  do 3 f_equal. repeat (apply (f_equal2 cons)); try reflexivity; lra.
Qed.

Lemma published_speeds_witness :
  exists obs s',
    get_observation
      (PollReady ([] ++ [Observation [("wrist", Jpeg new_wrist)]
                           (RemoteAgent.present_speed_field
                              (<["1" := 100]> (<["2" := 32868]> (<["3" := 0]> ∅))))
                           (ArmValues (repeat 1%R 6))])) two_cameras
    = (Ok obs, s')
    /\ last_present_speed s'
       = RemoteAgent.present_speed_field (<["1" := 100]> (<["2" := 32868]> (<["3" := 0]> ∅)))
    /\ obs !! OBS_STATE = Some (StateTensor (repeat 1%R 6 ++ [0; 0; 0]%R)).
Proof.
  apply (published_speeds_read_as_zero two_cameras []); [reflexivity|].
  intros cam Hin. apply list_elem_of_singleton in Hin. discriminate Hin.
Defined.

End DaemonSession.

(** ** Further properties of the remote agent *)

Section AgentExtras.
Import RemoteAgent.
Local Open Scope Q_scope.

Lemma last_velocities_snoc (msgs : list command) (msg : command) :
  last_velocities (msgs ++ [msg])
  = match msg with
    | Command _ (Some (Velocities raw_command)) => Some (command_speeds raw_command)
    | _ => last_velocities msgs
    end.
Proof. unfold last_velocities. rewrite fold_left_app. reflexivity. Qed.

Lemma last_velocities_accepted (msgs : list command) :
  is_Some (last_velocities msgs) <-> existsb accepted msgs = true.
Proof.
  induction msgs as [|msg msgs IH] using rev_ind.
  - cbn. split; [intros [? H]; discriminate H | discriminate].
  - rewrite last_velocities_snoc, existsb_app. cbn [existsb]. rewrite orb_false_r.
    destruct msg as [|arm [[|raw_command]|]]; cbn [accepted];
      rewrite ?orb_false_r, ?orb_true_r; try exact IH.
    split; [reflexivity | eauto].
Qed.

(** After the drain the wheel command in force is the last accepted one. *)
Lemma drain_applies_last (now : Q) (msgs : list command) (a : agent)
    (speeds : list Z) :
  last_velocities msgs = Some speeds ->
  applied_wheel_command (fold_left (fun a msg => handle_message now msg a) msgs a)
  = Some (SetVelocity speeds).
Proof.
  revert speeds. induction msgs as [|msg msgs IH] using rev_ind; intros speeds Hlast.
  - discriminate Hlast.
  - rewrite last_velocities_snoc in Hlast. rewrite fold_left_app. cbn [fold_left].
    set (a1 := fold_left _ msgs a) in *.
    destruct msg as [|arm raw].
    + apply IH, Hlast.
    + cbn [handle_message].
      destruct (dispatch_arm_applied arm a1) as [Happ _].
      destruct raw as [[|raw_command]|]; cbn [dispatch_wheels].
      * rewrite Happ. apply IH, Hlast.
      * injection Hlast as <-.
        unfold applied_wheel_command, set_last_cmd_time, do_call. cbn [calls].
        rewrite filter_app, filter_cons_True by reflexivity.
        rewrite filter_nil. apply last_snoc.
      * rewrite Happ. apply IH, Hlast.
Qed.

(** X15.  Latest wins: in an iteration that drains at least one usable
    wheel command, the wheel command in force afterwards is the last one
    drained, the watchdog's clock is set to the iteration's time, and the
    watchdog does not fire, however long ago the previous command came. *)
Theorem latest_wheel_command_wins (a : agent) (now : Q) (msgs : list command)
    (speeds : list Z) :
  last_velocities msgs = Some speeds ->
  applied_wheel_command (cycle a (now, msgs)) = Some (SetVelocity speeds)
  /\ last_cmd_time (cycle a (now, msgs)) = now
  /\ cycle a (now, msgs) = fold_left (fun a msg => handle_message now msg a) msgs a.
Proof.
  intros Hlast. cbn [cycle].
  set (a1 := fold_left (fun a msg => handle_message now msg a) msgs a).
  assert (Hacc : existsb accepted msgs = true).
  { apply last_velocities_accepted. rewrite Hlast. eauto. }
  pose proof (drain_effect now msgs a) as Hdrain. cbv zeta in Hdrain.
  rewrite Hacc in Hdrain. fold a1 in Hdrain.
  rewrite (watchdog_idle now a1) by (rewrite Hdrain; lra).
  split; [apply drain_applies_last, Hlast|]. split; [exact Hdrain | reflexivity].
Qed.

Lemma latest_wheel_command_witness :
  let first := Command None (Some (Velocities (<["wheel_1" := 100%Z]> ∅))) in
  let second := Command None (Some (Velocities (<["wheel_2" := 7%Z]> ∅))) in
  applied_wheel_command (cycle (start 0) (10, [first; BadJson; second]))
  = Some (SetVelocity [0; 7; 0]%Z).
Proof.
  cbv zeta.
  apply (latest_wheel_command_wins (start 0) 10 _ [0; 7; 0]%Z). reflexivity.
Defined.

(** X16.  After every iteration the watchdog's clock is at most 0.5 s
    behind the iteration's time; and once the watchdog has fired, an
    iteration without messages within the next 0.5 s calls nothing: the
    stop is given once, not every cycle. *)
Theorem watchdog_clock (a : agent) (now : Q) (msgs : list command) :
  now - last_cmd_time (cycle a (now, msgs)) <= 1 # 2
  /\ (forall now',
        1 # 2 < now - last_cmd_time a -> now' - now <= 1 # 2 ->
        calls (cycle a (now, [])) = calls a ++ [Stop]
        /\ cycle (cycle a (now, [])) (now', []) = cycle a (now, [])).
Proof.
  split.
  - cbn [cycle].
    set (a1 := fold_left (fun a msg => handle_message now msg a) msgs a).
    destruct (Qlt_le_dec (1 # 2) (now - last_cmd_time a1)) as [Hlate|Hsoon].
    + destruct (watchdog_fired now a1 Hlate) as [Ht _]. rewrite Ht. lra.
    + rewrite (watchdog_idle now a1 Hsoon). exact Hsoon.
  - intros now' Hlate Hsoon. cbn [cycle fold_left].
    destruct (watchdog_fired now a Hlate) as [Ht _].
    split.
    + unfold watchdog. destruct (Qlt_le_dec _ _) as [_|Hle]; [reflexivity | lra].
    + apply watchdog_idle. rewrite Ht. exact Hsoon.
Qed.

End AgentExtras.

Section MoreExtras.
Import Daemon.

Lemma observation_shape_witness :
  exists (obs : gmap string obs_value) (s' : daemon),
    get_observation PollTimeout two_cameras = (Ok obs, s')
    /\ s' = (get_data PollTimeout two_cameras).2
    /\ dom obs = (list_to_set (observation_keys (cameras two_cameras)) : gset string).
Proof.
  destruct (get_observation_connected PollTimeout two_cameras eq_refl)
    as (x & y & theta & _ & Hobs).
  destruct (observation_shape PollTimeout two_cameras _ _ Hobs)
    as (_ & Hs & Hdom & _).
  eexists _, _. split; [exact Hobs|]. split; [exact Hs | exact Hdom].
Defined.

Lemma decode_images_raises (images : list (string * image_payload))
    (frames : gmap string frame) (cam : string) :
  (cam, PayloadRaises) ∈ images ->
  decode_images images frames = Raise Base64Error.
Proof.
  revert frames. induction images as [|[cam0 p0] images IH]; intros frames Hin.
  - apply elem_of_nil in Hin as [].
  - cbn [decode_images]. apply elem_of_cons in Hin as [Heq|Hin].
    + injection Heq as <- <-. reflexivity.
    + destruct p0; cbn [decode_image]; try apply IH; try exact Hin. reflexivity.
Qed.

(** X17.  A message that fails to parse, or that carries a payload on
    which base64 decoding raises, is dropped as a whole: [get_data]
    returns the cached snapshot and leaves the caches as they were,
    whatever else the message holds (valid images, speeds, an arm state
    of any kind). *)
Theorem undecodable_message_dropped (s : daemon) (msgs : list obs_message) :
  get_data (PollReady (msgs ++ [Malformed])) s = (cached s, s)
  /\ (forall images speed arm cam,
        (cam, PayloadRaises) ∈ images ->
        get_data (PollReady (msgs ++ [Observation images speed arm])) s
        = (cached s, s)).
Proof.
  split.
  - cbn [get_data]. rewrite last_snoc. reflexivity.
  - intros images speed arm cam Hin. cbn [get_data]. rewrite last_snoc.
    cbn [decode_message]. rewrite (decode_images_raises images ∅ cam Hin).
    reflexivity.
Qed.

End MoreExtras.

Section AgentCalls.
Import RemoteAgent.
Local Open Scope Q_scope.

(** X18.  What one iteration calls, in full: every drained message is
    dispatched, in arrival order and each on its own (its arm writes, then
    its wheel command; a message that fails to parse adds nothing and does
    not disturb the others), and then the watchdog adds one stop exactly
    when no wheel command was accepted in this iteration and the clock is
    more than 0.5 s old. *)
Theorem iteration_calls (a : agent) (now : Q) (msgs : list command) :
  calls (cycle a (now, msgs))
  = calls a ++ flat_map message_calls msgs
    ++ (if existsb accepted msgs then []
        else if Qlt_le_dec (1 # 2) (now - last_cmd_time a) then [Stop] else []).
Proof.
  cbn [cycle].
  set (a1 := fold_left (fun a msg => handle_message now msg a) msgs a).
  pose proof (drain_calls now msgs a) as Hcalls. fold a1 in Hcalls.
  pose proof (drain_effect now msgs a) as Hdrain. cbv zeta in Hdrain. fold a1 in Hdrain.
  destruct (existsb accepted msgs).
  - rewrite (watchdog_idle now a1) by (rewrite Hdrain; lra).
    rewrite app_nil_r. exact Hcalls.
  - destruct Hdrain as [Ht _]. unfold watchdog. rewrite Ht.
    destruct (Qlt_le_dec (1 # 2) (now - last_cmd_time a)).
    + cbn [set_last_cmd_time do_call calls]. rewrite Hcalls, app_assoc. reflexivity.
    + rewrite app_nil_r. exact Hcalls.
Qed.

End AgentCalls.
